(** * Structural Verilog netlister of Hdl21: a shallow embedding

    Source: [src/hdl21/netlist/verilog.py], class [VerilogNetlister].

    The netlister is a Python object whose methods write text lines into a
    sink and raise exceptions.  It is embedded as a state-and-exception
    monad over the record [Netlister]; a raised exception keeps the state
    reached so far, as in Python.  The protobuf messages the methods read
    are records and inductive types; protobuf maps are association lists in
    insertion order; Python integers are [Z], strings are [string].

    The base class [Netlister] ([netlist/base.py]) and the protobuf schema
    ([proto/circuit_pb2]) are not part of the sources at hand.  What the
    methods of [verilog.py] call from them is collected in the class
    [NetlisterBase]; every definition and theorem is stated for an arbitrary
    instance of it. *)

From Stdlib Require Import String Ascii List ZArith Lia Bool DecimalString Permutation.
Import ListNotations.
Open Scope list_scope.
Open Scope string_scope.
Set Warnings "-register-all".

(** ** Python values *)

(** [str(i)] for a Python integer. *)
Definition str_int (i : Z) : string := NilZero.string_of_int (Z.to_int i).

(** The one-character string holding a line feed. *)
Definition nl : string := String (ascii_of_nat 10) EmptyString.

(** The exceptions raised by the netlister and by what it calls. *)
Inductive Exc : Type :=
| RuntimeError (msg : string)
| ValueError
| KeyError (key : string).

(** Truthiness of a Python sequence or mapping: non-empty. *)
Definition truthy {A : Type} (l : list A) : bool :=
  match l with [] => false | _ :: _ => true end.

(** [len(l)] as a Python integer. *)
Definition len {A : Type} (l : list A) : Z := Z.of_nat (length l).

(** Dictionaries in insertion order. *)
Section Dict.
Context {K V : Type} (eqb : K -> K -> bool).

(** [d.get(k, None)] *)
Fixpoint dict_get (d : list (K * V)) (k : K) : option V :=
  match d with
  | [] => None
  | (k', v) :: r => if eqb k' k then Some v else dict_get r k
  end.

(** [d[k] = v]: an existing key keeps its place and takes the new value,
    a new key goes last. *)
Fixpoint dict_set (d : list (K * V)) (k : K) (v : V) : list (K * V) :=
  match d with
  | [] => [(k, v)]
  | (k', v') :: r => if eqb k' k then (k', v) :: r else (k', v') :: dict_set r k v
  end.

(** Iteration over a mapping yields its keys. *)
Definition keys (d : list (K * V)) : list K := map fst d.
End Dict.

(** [a == b] for two values that are a string or [None]. *)
Definition option_eqb (a b : option string) : bool :=
  match a, b with
  | Some x, Some y => String.eqb x y
  | None, None => true
  | _, _ => false
  end.

(** [name in names] and [names.add(name)] for a set of strings. *)
Definition set_mem (name : string) (names : list string) : bool :=
  existsb (String.eqb name) names.

Definition set_add (name : string) (names : list string) : list string :=
  if set_mem name names then names else names ++ [name].

(** ** The circuit messages ([protodefs])

    [Module], [Instance] and [Parameter] are reserved words here: these
    three messages are [PModule], [PInstance] and [PParameter]. *)

Record Signal : Type := { sig_name : string; sig_width : Z }.

(** [Port.direction] is an open protobuf enumeration: the field holds an
    integer, and [Direction.Value(name)] (see [NetlisterBase]) gives the
    integer of an enumerator. *)
Record Port : Type := { port_signal : Signal; port_direction : Z }.

(** The members of the oneof [value] of a parameter.  [PDouble] carries
    the binary64 bit pattern; [POther] is any member besides the three the
    netlister knows, with its field name. *)
Inductive ParamValue : Type :=
| PInteger (i : Z)
| PDouble (bits : Z)
| PString (s : string)
| POther (field : string).

(** [param_value = None]: no member of the oneof is set. *)
Record PParameter : Type := { param_value : option ParamValue }.

(** [pparam.WhichOneof("value")] *)
Definition WhichOneof_value (pparam : PParameter) : option string :=
  match param_value pparam with
  | None => None
  | Some (PInteger _) => Some "integer"
  | Some (PDouble _) => Some "double"
  | Some (PString _) => Some "string"
  | Some (POther field) => Some field
  end.

Record Slice : Type := { slice_signal : string; slice_top : Z; slice_bot : Z }.

(** A connection is a signal, a slice, a concatenation of connections (the
    [parts] of a [Concat]) or a literal. *)
Inductive Connection : Type :=
| ConnSig (sig : Signal)
| ConnSlice (slice : Slice)
| ConnConcat (parts : list Connection)
| ConnLiteral (lit : string).

(** An instance refers to its module by name: a module of this circuit or
    an external one. *)
Inductive Reference : Type :=
| RefLocal (name : string)
| RefExternal (domain name : string).

Record PInstance : Type := {
  inst_name : string;
  inst_module : Reference;
  inst_parameters : list (string * PParameter);
  inst_connections : list (string * Connection)
}.

Record PModule : Type := {
  mod_name : string;
  mod_ports : list Port;
  mod_signals : list Signal;
  mod_default_parameters : list (string * PParameter);
  mod_instances : list PInstance
}.

Record ExternalModule : Type := {
  ext_name : string;
  ext_ports : list Port
}.

(** [ModuleLike]: what a reference resolves to. *)
Inductive ModuleLike : Type :=
| LocalModule (m : PModule)
| ExtModule (e : ExternalModule).

(** [module.ports] for either kind. *)
Definition ports (module : ModuleLike) : list Port :=
  match module with
  | LocalModule m => mod_ports m
  | ExtModule e => ext_ports e
  end.

Record ResolvedModule : Type := {
  rm_module : ModuleLike;
  rm_module_name : string
}.

(** ** What [verilog.py] calls from the base class and the schema

    - [Direction_Value]: [protodefs.Port.Direction.Value(name)];
    - [str_Port]: the text form of a port message, used in an error message;
    - [get_module_name]: the name a module is netlisted under;
    - [resolve_reference]: the target of an instance, looked up in the
      modules visited so far ([self.pmodules]); it may raise;
    - [get_param_default]: the default of a parameter as text, [None] when it
      has none; it may raise;
    - [get_param_value]: the value of a parameter as text; it may raise;
    - [format_literal]: the text of a literal connection. *)
Class NetlisterBase : Type := {
  Direction_Value : string -> Z;
  str_Port : Port -> string;
  get_module_name : PModule -> string;
  resolve_reference : list (string * PModule) -> Reference -> Exc + ResolvedModule;
  get_param_default : PParameter -> Exc + option string;
  get_param_value : PParameter -> Exc + string;
  format_literal : string -> string
}.

(** ** The netlister object and its monad *)

(** A written line: the indent depth it was written at, and its text. *)
Record Line : Type := { line_indent : Z; line_text : string }.

(** The attributes of [self] that [verilog.py] reads and writes. *)
Record Netlister : Type := {
  module_names : list string;
  pmodules : list (string * PModule);
  indent : Z;
  dest : list Line
}.

(** A method body: from the object to an exception or a value, and the
    object as the body left it. *)
Definition M (A : Type) : Type := Netlister -> (Exc + A) * Netlister.

Definition ret {A : Type} (a : A) : M A := fun self => (inr a, self).

Definition raise {A : Type} (e : Exc) : M A := fun self => (inl e, self).

Definition bind {A B : Type} (c : M A) (k : A -> M B) : M B :=
  fun self =>
    match c self with
    | (inl e, self') => (inl e, self')
    | (inr a, self') => k a self'
    end.

Notation "x <- c ;; k" := (bind c (fun x => k))
  (at level 61, c at next level, right associativity).
Notation "c ;; k" := (bind c (fun _ => k))
  (at level 61, right associativity).

(** A call that does not touch [self]. *)
Definition lift {A : Type} (r : Exc + A) : M A := fun self => (r, self).

(** Modelled from the spec: [writeln] of the base class, which writes one
    line at the current indent. *)
Definition writeln (s : string) : M unit :=
  fun self =>
    (inr tt,
     {| module_names := module_names self;
        pmodules := pmodules self;
        indent := indent self;
        dest := (dest self ++ [ {| line_indent := indent self; line_text := s |} ])%list |}).

(** [self.indent += n] *)
Definition indent_add (n : Z) : M unit :=
  fun self =>
    (inr tt,
     {| module_names := module_names self;
        pmodules := pmodules self;
        indent := indent self + n;
        dest := dest self |}).

(** [self.module_names.add(name)] *)
Definition module_names_add (name : string) : M unit :=
  fun self =>
    (inr tt,
     {| module_names := set_add name (module_names self);
        pmodules := pmodules self;
        indent := indent self;
        dest := dest self |}).

(** [self.pmodules[name] = module] *)
Definition pmodules_set (name : string) (module : PModule) : M unit :=
  fun self =>
    (inr tt,
     {| module_names := module_names self;
        pmodules := dict_set String.eqb (pmodules self) name module;
        indent := indent self;
        dest := dest self |}).

(** [for x in l: body(x)] *)
Fixpoint for_each {A : Type} (body : A -> M unit) (l : list A) : M unit :=
  match l with
  | [] => ret tt
  | x :: r => body x ;; for_each body r
  end.

(** [for num, x in enumerate(l): body(num, x)], counting from [num]. *)
Fixpoint for_enumerate {A : Type} (body : Z -> A -> M unit) (num : Z) (l : list A) : M unit :=
  match l with
  | [] => ret tt
  | x :: r => body num x ;; for_enumerate body (num + 1) r
  end.

(** ** The formatters of [VerilogNetlister] *)

Section Formatters.
Context {base : NetlisterBase}.

(** [format_param_type]: the Verilog type of a parameter. *)
Definition format_param_type (pparam : PParameter) : Exc + string :=
  let ptype := WhichOneof_value pparam in
  if option_eqb ptype (Some "integer") then inr "longint"
  else if option_eqb ptype (Some "double") then inr "real"
  else if option_eqb ptype (Some "string") then inr "string"
  else inl ValueError.

(** [format_param_decl]: the call of [format_param_type] is a comment in
    the source, so it has no counterpart here. *)
Definition format_param_decl (name : string) (param : PParameter) : Exc + string :=
  let rv := "parameter " ++ name in
  match get_param_default param with
  | inl e => inl e
  | inr default =>
      match default with
      | Some d => inr (rv ++ " = " ++ d)
      | None => inr rv
      end
  end.

(** [format_signal_decl] *)
Definition format_signal_decl (psig : Signal) : string :=
  let rv := "wire" in
  let rv := if (sig_width psig >? 1)%Z
            then rv ++ " [" ++ str_int (sig_width psig - 1) ++ ":0]"
            else rv in
  rv ++ " " ++ sig_name psig.

(** The dictionary literal of [format_port_decl]: four keys, written in
    this order, a later one replacing an equal earlier one. *)
Definition port_type_to_str : list (Z * string) :=
  dict_set Z.eqb
    (dict_set Z.eqb
       (dict_set Z.eqb
          (dict_set Z.eqb [] (Direction_Value "INPUT") "input")
          (Direction_Value "OUTPUT") "output")
       (Direction_Value "INOUT") "inout")
    (Direction_Value "NONE") "NO_DIRECTION".

(** [format_port_decl] *)
Definition format_port_decl (pport : Port) : Exc + string :=
  match dict_get Z.eqb port_type_to_str (port_direction pport) with
  | None =>
      inl (RuntimeError ("Invalid Verilog netlisting for unknown Port direction "
                         ++ str_int (port_direction pport)))
  | Some dir_ =>
      if dir_ =? "NO_DIRECTION"
      then inl (RuntimeError ("Invalid Verilog netlisting for undirected Port "
                              ++ str_Port pport))
      else inr (dir_ ++ " " ++ format_signal_decl (port_signal pport))
  end.

(** [format_signal_ref] and [format_port_ref] *)
Definition format_signal_ref (psig : Signal) : string := sig_name psig.

Definition format_port_ref (pport : Port) : string :=
  format_signal_ref (port_signal pport).

(** [format_signal_slice] *)
Definition format_signal_slice (pslice : Slice) : string :=
  if (slice_top pslice =? slice_bot pslice)%Z
  then slice_signal pslice ++ "[" ++ str_int (slice_top pslice) ++ "]"
  else slice_signal pslice ++ "[" ++ str_int (slice_top pslice) ++ ":"
                           ++ str_int (slice_bot pslice) ++ "]".

(** [format_concat], for the [format_connection] that [self] provides:
    [", ".join] is [String.concat ", "]. *)
Definition format_concat (format_connection : Connection -> string)
    (parts : list Connection) : string :=
  let parts := map format_connection parts in
  "{" ++ String.concat ", " parts ++ "}".

(** Modelled from the spec: [format_connection] of the base class, which
    sends each kind of connection to its formatter; the one for
    concatenations calls back into it. *)
Fixpoint format_connection (pconn : Connection) : string :=
  match pconn with
  | ConnSig sig => format_signal_ref sig
  | ConnSlice slice => format_signal_slice slice
  | ConnConcat parts => format_concat format_connection parts
  | ConnLiteral lit => format_literal lit
  end.
End Formatters.

(** ** The writers of [VerilogNetlister] *)

Section Writers.
Context {base : NetlisterBase}.

(** The comma after an entry: none after the last one. *)
Definition comma_at (num n : Z) : string :=
  if (num =? n - 1)%Z then "" else ",".

(** The parameter-value block of [write_instance]. *)
Definition write_parameter_values (pinst : PInstance) : M unit :=
  if truthy (inst_parameters pinst) then
    writeln "#( " ;;
    indent_add 1 ;;
    for_each
      (fun item : string * PParameter =>
         let (pname, pparam) := item in
         pval <- lift (get_param_value pparam) ;;
         writeln (pname ++ "=" ++ pval ++ " "))
      (inst_parameters pinst) ;;
    indent_add (-1) ;;
    writeln ") "
  else
    writeln "// No parameters ".

(** The connection block of [write_instance], for the resolved [module]. *)
Definition write_connections (pinst : PInstance) (module : ModuleLike) : M unit :=
  if truthy (ports module) then
    writeln "( " ;;
    indent_add 1 ;;
    let port_order := map (fun pport => sig_name (port_signal pport)) (ports module) in
    for_enumerate
      (fun num pname =>
         match dict_get String.eqb (inst_connections pinst) pname with
         | None =>
             raise (RuntimeError ("Unconnected Port " ++ pname ++ " on " ++ inst_name pinst))
         | Some pconn =>
             let comma := comma_at num (len port_order) in
             writeln ("." ++ pname ++ "(" ++ format_connection pconn ++ ")" ++ comma ++ " ")
         end)
      0%Z port_order ;;
    indent_add (-1) ;;
    writeln "); "
  else
    writeln "// No ports ".

(** [write_instance] *)
Definition write_instance (pinst : PInstance) : M unit :=
  target <- (fun self => lift (resolve_reference (pmodules self) (inst_module pinst)) self) ;;
  let module := rm_module target in
  let module_name := rm_module_name target in
  writeln module_name ;;
  write_parameter_values pinst ;;
  writeln (inst_name pinst) ;;
  write_connections pinst module ;;
  writeln "".

(** The parameter-declaration block of [write_module_definition]. *)
Definition write_default_parameters (module : PModule) : M unit :=
  if truthy (mod_default_parameters module) then
    writeln "#( " ;;
    indent_add 1 ;;
    for_enumerate
      (fun num name =>
         pparam <- lift (match dict_get String.eqb (mod_default_parameters module) name with
                         | Some pparam => inr pparam
                         | None => inl (KeyError name)
                         end) ;;
         let comma := comma_at num (len (mod_default_parameters module)) in
         decl <- lift (format_param_decl name pparam) ;;
         writeln (decl ++ comma))
      0%Z (keys (mod_default_parameters module)) ;;
    indent_add (-1) ;;
    writeln ") "
  else
    writeln "// No parameters ".

(** The port-declaration block of [write_module_definition]. *)
Definition write_ports (module : PModule) : M unit :=
  if truthy (mod_ports module) then
    writeln "( " ;;
    indent_add 1 ;;
    for_enumerate
      (fun num pport =>
         let comma := comma_at num (len (mod_ports module)) in
         decl <- lift (format_port_decl pport) ;;
         writeln (decl ++ comma))
      0%Z (mod_ports module) ;;
    indent_add (-1) ;;
    writeln "); "
  else
    writeln "// No ports ".

(** The signal declarations of [write_module_definition]. *)
Definition write_signals (module : PModule) : M unit :=
  if truthy (mod_signals module) then
    writeln "// Signal Declarations" ;;
    for_each (fun psig => writeln (format_signal_decl psig ++ "; ")) (mod_signals module)
  else
    writeln "// No Signal Declarations".

(** The instances of [write_module_definition]. *)
Definition write_instances (module : PModule) : M unit :=
  if truthy (mod_instances module) then
    writeln "" ;;
    writeln "// Instance Declarations" ;;
    for_each write_instance (mod_instances module)
  else
    writeln "// No Instances".

(** [write_module_definition] *)
Definition write_module_definition (module : PModule) : M unit :=
  let module_name := get_module_name module in
  in_names <- (fun self => ret (set_mem module_name (module_names self)) self) ;;
  if in_names : bool then
    raise (RuntimeError ("Module " ++ module_name ++ " doubly defined"))
  else
    module_names_add module_name ;;
    pmodules_set (mod_name module) module ;;
    writeln ("module " ++ module_name) ;;
    write_default_parameters module ;;
    write_ports module ;;
    writeln "" ;;
    indent_add 1 ;;
    write_signals module ;;
    write_instances module ;;
    indent_add (-1) ;;
    writeln "" ;;
    writeln ("endmodule // " ++ module_name ++ " " ++ nl ++ nl).

(** Modelled from the spec: an emission pass, which starts from a netlister
    with an empty name registry and an empty module map and writes the
    definitions of the modules in turn; the driver is in the base class.
    [sink] is what the destination already holds. *)
Definition new_netlister (sink : list Line) : Netlister :=
  {| module_names := []; pmodules := []; indent := 0%Z; dest := sink |}.

Definition emission_pass (modules : list PModule) : M unit :=
  for_each write_module_definition modules.
End Writers.

(** Modelled from the spec: the text a destination holds, each line behind
    its indent (one [tab] per level) and closed by a line feed. *)
Fixpoint tabs (tab : string) (n : nat) : string :=
  match n with
  | O => ""
  | S k => tab ++ tabs tab k
  end.

Definition render_line (tab : string) (l : Line) : string :=
  tabs tab (Z.to_nat (line_indent l)) ++ line_text l ++ nl.

Definition render (tab : string) (ls : list Line) : string :=
  String.concat "" (map (render_line tab) ls).

(** ** The separator law, in the words of the specification

    [separated tail bodies]: every entry but the last is its body followed
    by a comma, the last is its body alone; [tail] closes each entry. *)
Fixpoint separated (tail : string) (bodies : list string) : list string :=
  match bodies with
  | [] => []
  | [b] => [b ++ tail]
  | b :: r => (b ++ "," ++ tail) :: separated tail r
  end.

(** The last character of a string. *)
Fixpoint last_char (s : string) : option ascii :=
  match s with
  | EmptyString => None
  | String c EmptyString => Some c
  | String _ r => last_char r
  end.

(** The netlister with [ls] written behind what its destination holds. *)
Definition written (ls : list Line) (self : Netlister) : Netlister :=
  {| module_names := module_names self;
     pmodules := pmodules self;
     indent := indent self;
     dest := (dest self ++ ls)%list |}.

(** Lines of one indent depth. *)
Definition lines_at (depth : Z) (texts : list string) : list Line :=
  map (fun s => {| line_indent := depth; line_text := s |}) texts.

(** A bracketed block: opener and closer at [depth], entries one deeper. *)
Definition block (depth : Z) (opener : string) (entries : list string) (closer : string)
  : list Line :=
  ({| line_indent := depth; line_text := opener |}
     :: lines_at (depth + 1) entries
     ++ [ {| line_indent := depth; line_text := closer |} ])%list.

(** The netlister with its indent moved by [n]. *)
Definition indented (n : Z) (self : Netlister) : Netlister :=
  {| module_names := module_names self;
     pmodules := pmodules self;
     indent := indent self + n;
     dest := dest self |}.

(** A named binding of the connection block, without comma and blank; the
    bindings of the ports [port_order] to the connections [conns], pairwise;
    the entries of the parameter-value block for the values [pvals]. *)
Definition binding {base : NetlisterBase} (pname : string) (pconn : Connection) : string :=
  "." ++ pname ++ "(" ++ format_connection pconn ++ ")".

Definition bindings {base : NetlisterBase} (port_order : list string)
    (conns : list Connection) : list string :=
  map (fun pc : string * Connection => binding (fst pc) (snd pc)) (combine port_order conns).

Definition overrides (params : list (string * PParameter)) (pvals : list string)
  : list string :=
  map (fun pv : (string * PParameter) * string => fst (fst pv) ++ "=" ++ snd pv ++ " ")
      (combine params pvals).

(** [port_order] of [write_instance]: the names of the target's ports. *)
Definition port_names (module : ModuleLike) : list string :=
  map (fun pport => sig_name (port_signal pport)) (ports module).

(** The lines of the parameter-value block of an instance. *)
Definition parameter_value_lines (depth : Z) (params : list (string * PParameter))
    (pvals : list string) : list Line :=
  if truthy params
  then block depth "#( " (overrides params pvals) ") "
  else [ {| line_indent := depth; line_text := "// No parameters " |} ].

(** The lines of the default-parameter block of a module. *)
Definition default_parameter_lines (depth : Z) (params : list (string * PParameter))
    (decls : list string) : list Line :=
  if truthy params
  then block depth "#( " (separated "" decls) ") "
  else [ {| line_indent := depth; line_text := "// No parameters " |} ].

(** The netlister with an empty destination. *)
Definition emptied (self : Netlister) : Netlister :=
  {| module_names := module_names self;
     pmodules := pmodules self;
     indent := indent self;
     dest := [] |}.

(** The netlister whose destination holds [sink] before its own lines. *)
Definition after_sink (sink : list Line) (self : Netlister) : Netlister :=
  {| module_names := module_names self;
     pmodules := pmodules self;
     indent := indent self;
     dest := (sink ++ dest self)%list |}.

(** A method body whose outcome and written lines do not depend on what
    the destination already holds. *)
Definition sink_independent {A : Type} (c : M A) : Prop :=
  forall (sink : list Line) (self : Netlister),
    c (after_sink sink self) = (fst (c self), after_sink sink (snd (c self))).

(** A method body that leaves the name registry as it is. *)
Definition keeps_names {A : Type} (c : M A) : Prop :=
  forall self, module_names (snd (c self)) = module_names self.

(** The value kinds [format_param_type] knows. *)
Definition recognized_kind (pparam : PParameter) : bool :=
  existsb (option_eqb (WhichOneof_value pparam))
          [Some "integer"; Some "double"; Some "string"].

(** A port direction that is none of the four enumerators. *)
Definition unknown_direction {base : NetlisterBase} (pport : Port) : Prop :=
  ~ In (port_direction pport)
       [Direction_Value "INPUT"; Direction_Value "OUTPUT";
        Direction_Value "INOUT"; Direction_Value "NONE"].

(** ** A concrete base class, for examples

    Modelled from the spec: the collaborators of the emitter.  Directions
    are numbered in the order INPUT, OUTPUT, INOUT, NONE; a module is
    netlisted under its own name; a local reference resolves to the module
    registered under that name and an external one to the external module
    of that name in [ext_modules]; a parameter's default is its literal, and
    absent when no value is set; the literal of an integer is its decimal
    form and that of a string the string itself; any other kind of value
    (doubles included, whose printing is outside this development) is an
    unsupported parameter type. *)
Definition demo_Direction_Value (name : string) : Z :=
  if name =? "INPUT" then 0
  else if name =? "OUTPUT" then 1
  else if name =? "INOUT" then 2
  else 3.

Definition demo_resolve_reference (ext_modules : list ExternalModule)
    (pmods : list (string * PModule)) (ref : Reference) : Exc + ResolvedModule :=
  match ref with
  | RefLocal name =>
      match dict_get String.eqb pmods name with
      | Some m => inr {| rm_module := LocalModule m; rm_module_name := mod_name m |}
      | None => inl (RuntimeError ("Invalid Module reference " ++ name))
      end
  | RefExternal _ name =>
      match find (fun e => ext_name e =? name) ext_modules with
      | Some e => inr {| rm_module := ExtModule e; rm_module_name := ext_name e |}
      | None => inl (RuntimeError ("Invalid External Module reference " ++ name))
      end
  end.

Definition demo_get_param_value (pparam : PParameter) : Exc + string :=
  match param_value pparam with
  | Some (PInteger i) => inr (str_int i)
  | Some (PString s) => inr s
  | _ => inl ValueError
  end.

Definition demo_get_param_default (pparam : PParameter) : Exc + option string :=
  match param_value pparam with
  | None => inr None
  | Some _ =>
      match demo_get_param_value pparam with
      | inl e => inl e
      | inr s => inr (Some s)
      end
  end.

Definition demo_base (ext_modules : list ExternalModule) : NetlisterBase :=
  {| Direction_Value := demo_Direction_Value;
     str_Port := fun pport => sig_name (port_signal pport);
     get_module_name := mod_name;
     resolve_reference := demo_resolve_reference ext_modules;
     get_param_default := demo_get_param_default;
     get_param_value := demo_get_param_value;
     format_literal := fun lit => lit |}.

(** Sample messages. *)
Definition sig_a : Signal := {| sig_name := "a"; sig_width := 1 |}.
Definition sig_b : Signal := {| sig_name := "b"; sig_width := 8 |}.
Definition port_a : Port := {| port_signal := sig_a; port_direction := 0 |}.
Definition port_b : Port := {| port_signal := sig_b; port_direction := 1 |}.
Definition port_undirected : Port := {| port_signal := sig_a; port_direction := 3 |}.
Definition port_unknown : Port := {| port_signal := sig_a; port_direction := 7 |}.

Definition param_unset : PParameter := {| param_value := None |}.
Definition param_bool : PParameter := {| param_value := Some (POther "bool") |}.
Definition param_int (i : Z) : PParameter := {| param_value := Some (PInteger i) |}.

(** A leaf module with ports [a] (input) and [b] (output, 8 bits). *)
Definition leaf : PModule :=
  {| mod_name := "leaf";
     mod_ports := [port_a; port_b];
     mod_signals := [];
     mod_default_parameters := [("w", param_int 8); ("d", param_unset)];
     mod_instances := [] |}.

(** An instance of [leaf] whose connections are given in the order b, a. *)
Definition inst_ok : PInstance :=
  {| inst_name := "i0";
     inst_module := RefLocal "leaf";
     inst_parameters := [("w", param_int 4); ("d", param_int 2)];
     inst_connections :=
       [("b", ConnSlice {| slice_signal := "x"; slice_top := 7; slice_bot := 0 |});
        ("a", ConnSig sig_a)] |}.

(** The same instance with the connections in the order a, b. *)
Definition inst_ok_swapped : PInstance :=
  {| inst_name := "i0";
     inst_module := RefLocal "leaf";
     inst_parameters := [("w", param_int 4); ("d", param_int 2)];
     inst_connections :=
       [("a", ConnSig sig_a);
        ("b", ConnSlice {| slice_signal := "x"; slice_top := 7; slice_bot := 0 |})] |}.

(** An instance of [leaf] that leaves port [b] open. *)
Definition inst_open : PInstance :=
  {| inst_name := "i1";
     inst_module := RefLocal "leaf";
     inst_parameters := [];
     inst_connections := [("a", ConnSig sig_a)] |}.

Definition top : PModule :=
  {| mod_name := "top";
     mod_ports := [port_a];
     mod_signals := [sig_b];
     mod_default_parameters := [];
     mod_instances := [inst_ok] |}.

(** A netlister that has visited [leaf]. *)
Definition after_leaf : Netlister :=
  {| module_names := ["leaf"];
     pmodules := [("leaf", leaf)];
     indent := 1;
     dest := [] |}.

(** More sample messages: an instance with a value that cannot be
    formatted, an instance of a module nobody defined, a module without
    ports and an instance of it, a module with an undirected port, a module
    with a default that cannot be formatted, and a netlister that has
    visited [leaf] and [bare]. *)
Definition inst_badval : PInstance :=
  {| inst_name := "i2";
     inst_module := RefLocal "leaf";
     inst_parameters := [("w", param_int 4); ("m", param_bool); ("d", param_int 2)];
     inst_connections := [("a", ConnSig sig_a); ("b", ConnSig sig_b)] |}.

Definition inst_unresolved : PInstance :=
  {| inst_name := "i3";
     inst_module := RefLocal "nowhere";
     inst_parameters := [];
     inst_connections := [] |}.

Definition bare : PModule :=
  {| mod_name := "bare";
     mod_ports := [];
     mod_signals := [sig_a; sig_b];
     mod_default_parameters := [];
     mod_instances := [] |}.

Definition inst_bare : PInstance :=
  {| inst_name := "i4";
     inst_module := RefLocal "bare";
     inst_parameters := [];
     inst_connections := [("a", ConnSig sig_a)] |}.

Definition half_directed : PModule :=
  {| mod_name := "half";
     mod_ports := [port_a; port_undirected; port_b];
     mod_signals := [];
     mod_default_parameters := [("w", param_int 8)];
     mod_instances := [] |}.

Definition bad_default : PModule :=
  {| mod_name := "bad";
     mod_ports := [];
     mod_signals := [];
     mod_default_parameters := [("w", param_int 8); ("m", param_bool)];
     mod_instances := [] |}.

(** A module whose only instance refers to a module nobody defined, and a
    module that instantiates itself. *)
Definition lonely : PModule :=
  {| mod_name := "lonely";
     mod_ports := [port_a];
     mod_signals := [];
     mod_default_parameters := [];
     mod_instances := [inst_unresolved] |}.

Definition inst_self : PInstance :=
  {| inst_name := "again";
     inst_module := RefLocal "rec";
     inst_parameters := [];
     inst_connections := [("a", ConnSig sig_a)] |}.

Definition selfref : PModule :=
  {| mod_name := "rec";
     mod_ports := [port_a];
     mod_signals := [];
     mod_default_parameters := [];
     mod_instances := [inst_self] |}.

Definition after_bare : Netlister :=
  {| module_names := ["leaf"; "bare"];
     pmodules := [("leaf", leaf); ("bare", bare)];
     indent := 1;
     dest := [] |}.

(** ** The parameter collaborators and the unset direction *)

(** Modelled from the spec: [get_param_value] of the base class, which
    gives the literal of a parameter's value: of an integer, a
    floating-point number or a string; a value of any other kind, or no
    value, is an unsupported parameter type ([ValueError]).  [str_double]
    prints a double, given by its bit pattern; floating point is not
    modelled. *)
Definition spec_get_param_value (str_double : Z -> string) (pparam : PParameter)
  : Exc + string :=
  match param_value pparam with
  | Some (PInteger i) => inr (str_int i)
  | Some (PDouble bits) => inr (str_double bits)
  | Some (PString s) => inr s
  | Some (POther _) => inl ValueError
  | None => inl ValueError
  end.

(** Modelled from the spec: [get_param_default] of the base class, which
    gives the literal default of a parameter: absent when the parameter
    has no value, the literal of its value otherwise, and an unsupported
    parameter type ([ValueError]) for a value of another kind. *)
Definition spec_get_param_default (str_double : Z -> string) (pparam : PParameter)
  : Exc + option string :=
  match param_value pparam with
  | None => inr None
  | Some _ =>
      match spec_get_param_value str_double pparam with
      | inl e => inl e
      | inr literal => inr (Some literal)
      end
  end.

(** A base class with these two collaborators, the rest as in [base]. *)
Definition with_spec_parameters (str_double : Z -> string) (base : NetlisterBase)
  : NetlisterBase :=
  {| Direction_Value := @Direction_Value base;
     str_Port := @str_Port base;
     get_module_name := @get_module_name base;
     resolve_reference := @resolve_reference base;
     get_param_default := spec_get_param_default str_double;
     get_param_value := spec_get_param_value str_double;
     format_literal := @format_literal base |}.

(** A direction field that was never assigned reads as 0, the default of
    a protobuf enumeration field. *)
Definition unset_direction : Z := 0.

(** The entries of the parameter-value block without their closing blank. *)
Definition override_bodies (params : list (string * PParameter)) (pvals : list string)
  : list string :=
  map (fun pv : (string * PParameter) * string => fst (fst pv) ++ "=" ++ snd pv)
      (combine params pvals).

(** ** Shapes of method bodies, for the further properties *)

(** A method body that leaves the attribute [f] of the netlister as it is,
    whether it returns or raises. *)
Definition keeps {X A : Type} (f : Netlister -> X) (c : M A) : Prop :=
  forall self, f (snd (c self)) = f self.

(** A method body that, when it returns, has moved the indent by [n]. *)
Definition shifts {A : Type} (n : Z) (c : M A) : Prop :=
  forall self a self', c self = (inr a, self') -> indent self' = (indent self + n)%Z.

(** A method body that only adds lines to the destination, whether it
    returns or raises. *)
Definition appends {A : Type} (c : M A) : Prop :=
  forall self, exists out, dest (snd (c self)) = (dest self ++ out)%list.

(** A method body that, when it returns, has written a line of text [t]
    last, at the indent it ends with. *)
Definition ends_with_line {A : Type} (t : string) (c : M A) : Prop :=
  forall self a self', c self = (inr a, self') ->
    exists mid,
      dest self' = (dest self ++ mid ++ [ {| line_indent := indent self'; line_text := t |} ])%list.

(** The lines of the port block of a module, of its signal declarations,
    and of the connection block of an instance. *)
Definition port_lines (depth : Z) (pports : list Port) (decls : list string) : list Line :=
  if truthy pports
  then block depth "( " (separated "" decls) "); "
  else [ {| line_indent := depth; line_text := "// No ports " |} ].

Definition signal_lines (depth : Z) (psigs : list Signal) : list Line :=
  if truthy psigs
  then {| line_indent := depth; line_text := "// Signal Declarations" |}
         :: lines_at depth (map (fun psig => format_signal_decl psig ++ "; ") psigs)
  else [ {| line_indent := depth; line_text := "// No Signal Declarations" |} ].

Definition connection_lines {base : NetlisterBase} (depth : Z) (module : ModuleLike)
    (conns : list Connection) : list Line :=
  if truthy (ports module)
  then block depth "( " (separated " " (bindings (port_names module) conns)) "); "
  else [ {| line_indent := depth; line_text := "// No ports " |} ].

(** The netlister after [write_module_definition] has registered [module]. *)
Definition registered {base : NetlisterBase} (module : PModule) (self : Netlister)
  : Netlister :=
  {| module_names := set_add (get_module_name module) (module_names self);
     pmodules := dict_set String.eqb (pmodules self) (mod_name module) module;
     indent := indent self;
     dest := dest self |}.

(** * Properties *)

(** ** Strings and dictionaries *)

Lemma render_app (tab : string) (l1 l2 : list Line) :
  render tab (l1 ++ l2) = render tab l1 ++ render tab l2.
Proof.
  unfold render. induction l1 as [|x l1 IH]; [reflexivity |].
  simpl map. destruct l1 as [|y l1].
  - simpl. destruct l2 as [|z l2]; simpl.
    + clear. induction (render_line tab x); simpl; [reflexivity | now f_equal].
    + reflexivity.
  - change (String.concat "" (render_line tab x :: map (render_line tab) ((y :: l1) ++ l2)))
      with (render_line tab x ++ "" ++ String.concat "" (map (render_line tab) ((y :: l1) ++ l2))).
    rewrite IH. simpl.
    clear. induction (render_line tab x); simpl; [reflexivity | now f_equal].
Qed.


Lemma append_assoc (a b c : string) : (a ++ b) ++ c = a ++ b ++ c.
Proof.
  induction a as [|ch a IH]; simpl; [reflexivity | now rewrite IH].
Qed.

Lemma append_nil_r (a : string) : a ++ "" = a.
Proof.
  induction a as [|ch a IH]; simpl; [reflexivity | now rewrite IH].
Qed.

Lemma last_char_append (a : string) (c : ascii) :
  last_char (a ++ String c EmptyString) = Some c.
Proof.
  induction a as [|ch a IH]; simpl; [reflexivity |].
  rewrite IH. destruct a; reflexivity.
Qed.

Lemma last_char_override (pname pval : string) :
  last_char (pname ++ "=" ++ pval ++ " ") = Some " "%char.
Proof.
  rewrite <- (append_assoc "=" pval " "), <- (append_assoc pname ("=" ++ pval) " ").
  apply last_char_append.
Qed.

Lemma concat_app (sep : string) (p q : list string) :
  p <> [] -> q <> [] ->
  String.concat sep (p ++ q) = String.concat sep p ++ sep ++ String.concat sep q.
Proof.
  intros Hp Hq. induction p as [|x p IH]; [congruence |].
  destruct p as [|y p].
  - simpl. destruct q; [congruence | reflexivity].
  - change (String.concat sep ((x :: y :: p) ++ q))
      with (x ++ sep ++ String.concat sep ((y :: p) ++ q)).
    rewrite IH by discriminate.
    change (String.concat sep (x :: y :: p)) with (x ++ sep ++ String.concat sep (y :: p)).
    now rewrite !append_assoc.
Qed.

Section DictFacts.
Context {V : Type}.

Lemma dict_get_set_same (d : list (Z * V)) (k : Z) (v : V) :
  dict_get Z.eqb (dict_set Z.eqb d k v) k = Some v.
Proof.
  induction d as [|[k' v'] d IH]; simpl.
  - now rewrite Z.eqb_refl.
  - destruct (Z.eqb_spec k' k) as [->|Hne]; simpl.
    + now rewrite Z.eqb_refl.
    + destruct (Z.eqb_spec k' k); [contradiction | exact IH].
Qed.

Lemma dict_get_set_other (d : list (Z * V)) (k k' : Z) (v : V) :
  k <> k' ->
  dict_get Z.eqb (dict_set Z.eqb d k v) k' = dict_get Z.eqb d k'.
Proof.
  intros Hne. induction d as [|[k0 v0] d IH]; simpl.
  - destruct (Z.eqb_spec k k'); [contradiction | reflexivity].
  - destruct (Z.eqb_spec k0 k) as [->|Hk0]; simpl.
    + destruct (Z.eqb_spec k k'); [contradiction | reflexivity].
    + now rewrite IH.
Qed.
End DictFacts.

(** ** Declaration and connection formatters *)

Section FormatterFacts.
Context {base : NetlisterBase}.

Lemma format_param_type_unrecognized (pparam : PParameter) :
  recognized_kind pparam = false -> format_param_type pparam = inl ValueError.
Proof.
  unfold recognized_kind, format_param_type. simpl.
  intros H.
  destruct (option_eqb (WhichOneof_value pparam) (Some "integer")); [discriminate |].
  destruct (option_eqb (WhichOneof_value pparam) (Some "double")); [discriminate |].
  destruct (option_eqb (WhichOneof_value pparam) (Some "string")); [discriminate |].
  reflexivity.
Qed.

Lemma format_port_decl_none (pport : Port) :
  port_direction pport = Direction_Value "NONE" ->
  format_port_decl pport =
    inl (RuntimeError ("Invalid Verilog netlisting for undirected Port " ++ str_Port pport)).
Proof.
  intros H. unfold format_port_decl, port_type_to_str.
  rewrite H, dict_get_set_same. reflexivity.
Qed.

Lemma format_port_decl_unknown (pport : Port) :
  unknown_direction pport ->
  format_port_decl pport =
    inl (RuntimeError ("Invalid Verilog netlisting for unknown Port direction "
                       ++ str_int (port_direction pport))).
Proof.
  unfold unknown_direction. simpl. intros H.
  unfold format_port_decl, port_type_to_str.
  rewrite !dict_get_set_other by (intros E; apply H; rewrite E; tauto).
  reflexivity.
Qed.
End FormatterFacts.

(** [format_param_decl] has no check of its own: it raises exactly what
    [get_param_default] raises, and otherwise returns the declaration, with
    the default when there is one. *)
Lemma format_param_decl_outcomes {base : NetlisterBase} (name : string)
    (pparam : PParameter) :
  (forall e, format_param_decl name pparam = inl e <-> get_param_default pparam = inl e) /\
  (get_param_default pparam = inr None ->
   format_param_decl name pparam = inr ("parameter " ++ name)) /\
  (forall d, get_param_default pparam = inr (Some d) ->
   format_param_decl name pparam = inr ("parameter " ++ name ++ " = " ++ d)).
Proof.
  unfold format_param_decl.
  destruct (get_param_default pparam) as [e0 | [d0 |]].
  - repeat split; intros; congruence.
  - repeat split; intros; try congruence.
    match goal with E : inr _ = inr _ |- _ => injection E as <- end.
    now rewrite append_assoc.
  - repeat split; intros; congruence.
Qed.

(** C6: a slice whose top and bottom indices are equal is formatted as the
    single-bit index [signal[top]]; one whose top is above its bottom as
    the range [signal[top:bot]]; the indices are not checked: a top below
    the bottom is formatted as a range all the same. *)
Theorem C6_format_signal_slice (pslice : Slice) :
  (slice_top pslice = slice_bot pslice ->
   format_signal_slice pslice
   = slice_signal pslice ++ "[" ++ str_int (slice_top pslice) ++ "]") /\
  ((slice_top pslice > slice_bot pslice)%Z ->
   format_signal_slice pslice
   = slice_signal pslice ++ "[" ++ str_int (slice_top pslice) ++ ":"
                         ++ str_int (slice_bot pslice) ++ "]") /\
  ((slice_top pslice < slice_bot pslice)%Z ->
   format_signal_slice pslice
   = slice_signal pslice ++ "[" ++ str_int (slice_top pslice) ++ ":"
                         ++ str_int (slice_bot pslice) ++ "]").
Proof.
  unfold format_signal_slice.
  destruct (Z.eqb_spec (slice_top pslice) (slice_bot pslice)) as [E | N].
  - repeat split; intros; (reflexivity || lia).
  - repeat split; intros; (reflexivity || contradiction).
Qed.

Example format_signal_slice_samples :
  format_signal_slice {| slice_signal := "x"; slice_top := 5; slice_bot := 5 |} = "x[5]" /\
  format_signal_slice {| slice_signal := "x"; slice_top := 7; slice_bot := 0 |} = "x[7:0]" /\
  format_signal_slice {| slice_signal := "x"; slice_top := 0; slice_bot := 7 |} = "x[0:7]" /\
  format_signal_slice {| slice_signal := "x"; slice_top := -1; slice_bot := -1 |} = "x[-1]".
Proof. repeat split; reflexivity. Qed.

(** C7: a concatenation is formatted by formatting each part with
    [format_connection] (which sends a nested concatenation back to
    [format_concat]), joining the texts with a comma and a blank, and
    putting the result in braces; the texts stand in the order of the
    parts: those of [p] before those of [q] for the parts [p ++ q], and
    the i-th text is that of the i-th part. *)
Theorem C7_format_concat {base : NetlisterBase} (parts : list Connection) :
  format_concat format_connection parts
  = "{" ++ String.concat ", " (map format_connection parts) ++ "}" /\
  format_connection (ConnConcat parts) = format_concat format_connection parts /\
  (forall i part, nth_error parts i = Some part ->
     nth_error (map format_connection parts) i = Some (format_connection part)) /\
  (forall p q, parts = (p ++ q)%list -> p <> [] -> q <> [] ->
     format_concat format_connection parts
     = "{" ++ String.concat ", " (map format_connection p) ++ ", "
           ++ String.concat ", " (map format_connection q) ++ "}").
Proof.
  repeat split.
  - intros i part H. now apply map_nth_error.
  - intros p q -> Hp Hq. unfold format_concat.
    rewrite map_app, concat_app.
    + now rewrite !append_assoc.
    + destruct p; [congruence | discriminate].
    + destruct q; [congruence | discriminate].
Qed.

(** The example of the specification: two slices around a signal, and the
    same with a nested concatenation. *)
Example format_concat_samples {base : NetlisterBase} :
  format_connection
    (ConnConcat [ConnSlice {| slice_signal := "A"; slice_top := 3; slice_bot := 2 |};
                 ConnSig {| sig_name := "B"; sig_width := 1 |};
                 ConnSlice {| slice_signal := "C"; slice_top := 0; slice_bot := 0 |}])
  = "{A[3:2], B, C[0]}" /\
  format_connection
    (ConnConcat [ConnSig sig_b; ConnConcat [ConnSig sig_a; ConnSig sig_b]; ConnConcat []])
  = "{b, {a, b}, {}}".
Proof. split; reflexivity. Qed.

(** A port with one of the three directions is declared with its keyword. *)
Example format_port_decl_samples :
  @format_port_decl (demo_base []) port_a = inr "input wire a" /\
  @format_port_decl (demo_base []) port_b = inr "output wire [7:0] b" /\
  @format_port_decl (demo_base []) port_undirected
  = inl (RuntimeError "Invalid Verilog netlisting for undirected Port a") /\
  @format_port_decl (demo_base []) port_unknown
  = inl (RuntimeError "Invalid Verilog netlisting for unknown Port direction 7").
Proof. repeat split; reflexivity. Qed.

(** ** Running method bodies *)

Lemma bind_ok {A B : Type} (c : M A) (k : A -> M B) (self self' : Netlister) (a : A) :
  c self = (inr a, self') -> bind c k self = k a self'.
Proof. intros H. unfold bind. now rewrite H. Qed.

Lemma bind_raise {A B : Type} (c : M A) (k : A -> M B) (self self' : Netlister) (e : Exc) :
  c self = (inl e, self') -> bind c k self = (inl e, self').
Proof. intros H. unfold bind. now rewrite H. Qed.

Lemma written_nil (self : Netlister) : written [] self = self.
Proof. destruct self. unfold written. simpl. now rewrite app_nil_r. Qed.

Lemma written_app (l1 l2 : list Line) (self : Netlister) :
  written l2 (written l1 self) = written (l1 ++ l2) self.
Proof. unfold written. simpl. now rewrite app_assoc. Qed.

Lemma writeln_written (s : string) (self : Netlister) :
  writeln s self = (inr tt, written [ {| line_indent := indent self; line_text := s |} ] self).
Proof. reflexivity. Qed.

Lemma separated_cons2 (tail b b' : string) (r : list string) :
  separated tail (b :: b' :: r) = (b ++ "," ++ tail) :: separated tail (b' :: r).
Proof. reflexivity. Qed.

Lemma separated_length (tail : string) (bodies : list string) :
  length (separated tail bodies) = length bodies.
Proof.
  induction bodies as [|b r IH]; [reflexivity |].
  destruct r as [|b' r]; [reflexivity |].
  rewrite separated_cons2.
  change (S (length (separated tail (b' :: r))) = S (length (b' :: r))).
  now rewrite IH.
Qed.

(** The entries of a separated list, by position: all but the last carry
    the comma, the last does not. *)
Lemma separated_nth (tail : string) (bodies : list string) (i : nat) :
  (i < length bodies)%nat ->
  nth i (separated tail bodies) ""
  = if (S i =? length bodies)%nat
    then nth i bodies "" ++ tail
    else nth i bodies "" ++ "," ++ tail.
Proof.
  revert i. induction bodies as [|b r IH]; intros i Hi; [simpl in Hi; lia |].
  destruct r as [|b' r].
  - destruct i; [reflexivity | simpl in Hi; lia].
  - rewrite separated_cons2. destruct i as [|i].
    + reflexivity.
    + change (nth (S i) ((b ++ "," ++ tail) :: separated tail (b' :: r)) "")
        with (nth i (separated tail (b' :: r)) "").
      rewrite IH by (simpl in *; lia).
      change (nth (S i) (b :: b' :: r) "") with (nth i (b' :: r) "").
      change (length (b :: b' :: r)) with (S (length (b' :: r))).
      reflexivity.
Qed.

Section Loops.
Context {A : Type}.

(** A loop whose body writes one line per element writes their lines. *)
Lemma for_each_written (body : A -> M unit) (R : A -> string -> Prop) :
  (forall x t self, R x t ->
     body x self = (inr tt, written [ {| line_indent := indent self; line_text := t |} ] self)) ->
  forall l ts, Forall2 R l ts ->
  forall self,
    for_each body l self = (inr tt, written (lines_at (indent self) ts) self).
Proof.
  intros Hbody l ts HF. induction HF as [|x t l ts HR HF IH]; intros self.
  - simpl. unfold ret. now rewrite written_nil.
  - simpl. rewrite (bind_ok _ _ _ _ _ (Hbody x t self HR)).
    rewrite IH, written_app. reflexivity.
Qed.

(** An enumerating loop whose body writes, per element, its text, the
    comma of its position and a tail writes the separated texts. *)
Lemma for_enumerate_separated (body : Z -> A -> M unit) (R : A -> string -> Prop)
    (tail : string) (n : Z) :
  (forall num x t self, R x t ->
     body num x self
     = (inr tt, written [ {| line_indent := indent self;
                             line_text := t ++ comma_at num n ++ tail |} ] self)) ->
  forall l ts, Forall2 R l ts ->
  forall num self, (num + len l = n)%Z ->
    for_enumerate body num l self
    = (inr tt, written (lines_at (indent self) (separated tail ts)) self).
Proof.
  intros Hbody l ts HF. induction HF as [|x t l ts HR HF IH]; intros num self Hn.
  - simpl. unfold ret. now rewrite written_nil.
  - simpl for_enumerate. rewrite (bind_ok _ _ _ _ _ (Hbody num x t self HR)).
    unfold len in *. simpl length in Hn.
    destruct HF as [|x' t' l ts HR' HF].
    + simpl. unfold ret, comma_at.
      replace (num =? n - 1)%Z with true by (symmetry; apply Z.eqb_eq; simpl in Hn; lia).
      reflexivity.
    + rewrite IH by (simpl length in *; lia).
      rewrite written_app, separated_cons2. unfold comma_at.
      replace (num =? n - 1)%Z with false
        by (symmetry; apply Z.eqb_neq; simpl length in Hn; lia).
      reflexivity.
Qed.

(** The same loop stopped by an element that raises: the elements before
    it have written their texts, each with its comma. *)
Lemma for_enumerate_raises (body : Z -> A -> M unit) (R : A -> string -> Prop)
    (tail : string) (n : Z) (e : Exc) (x : A) (post : list A) :
  (forall num y t self, R y t ->
     body num y self
     = (inr tt, written [ {| line_indent := indent self;
                             line_text := t ++ comma_at num n ++ tail |} ] self)) ->
  (forall num self, body num x self = (inl e, self)) ->
  forall pre ts, Forall2 R pre ts ->
  forall num self, (num + len (pre ++ x :: post) = n)%Z ->
    for_enumerate body num (pre ++ x :: post) self
    = (inl e, written (lines_at (indent self) (map (fun t => t ++ "," ++ tail) ts)) self).
Proof.
  intros Hbody Hx pre ts HF. induction HF as [|y t pre ts HR HF IH]; intros num self Hn.
  - simpl. rewrite (bind_raise _ _ _ _ _ (Hx num self)). now rewrite written_nil.
  - simpl for_enumerate. rewrite (bind_ok _ _ _ _ _ (Hbody num y t self HR)).
    unfold len in *. rewrite IH.
    + rewrite written_app. unfold comma_at.
      replace (num =? n - 1)%Z with false.
      * reflexivity.
      * symmetry. apply Z.eqb_neq. simpl length in Hn. rewrite length_app in Hn.
        simpl length in Hn. lia.
    + simpl length in Hn. lia.
Qed.
End Loops.

(** ** The blocks of the writers *)

(** A block around a loop that writes [entries]. *)
Lemma block_written (loop : M unit) (opener closer : string) (entries : list string) :
  (forall s, loop s = (inr tt, written (lines_at (indent s) entries) s)) ->
  forall self,
    (writeln opener ;; indent_add 1 ;; loop ;; indent_add (-1) ;; writeln closer) self
    = (inr tt, written (block (indent self) opener entries closer) self).
Proof.
  intros Hloop self. unfold bind at 1. rewrite writeln_written.
  unfold bind at 1. unfold indent_add at 1. unfold bind at 1. rewrite Hloop.
  unfold bind, indent_add, writeln, written, block. simpl.
  replace (indent self + 1 + -1)%Z with (indent self) by lia.
  rewrite <- !app_assoc. reflexivity.
Qed.

(** A block whose loop raises after writing [entries]: the opener and the
    entries are written, the indent stays one level in. *)
Lemma block_raises (loop : M unit) (opener closer : string) (entries : list string)
    (e : Exc) :
  (forall s, loop s = (inl e, written (lines_at (indent s) entries) s)) ->
  forall self,
    (writeln opener ;; indent_add 1 ;; loop ;; indent_add (-1) ;; writeln closer) self
    = (inl e,
       indented 1
         (written ({| line_indent := indent self; line_text := opener |}
                     :: lines_at (indent self + 1) entries) self)).
Proof.
  intros Hloop self. unfold bind at 1. rewrite writeln_written.
  unfold bind at 1. unfold indent_add at 1. unfold bind at 1. rewrite Hloop.
  unfold indented, written. simpl. do 2 f_equal.
  now rewrite <- app_assoc.
Qed.

Lemma truthy_cons {A : Type} (l : list A) : l <> [] -> truthy l = true.
Proof. destruct l; [congruence | reflexivity]. Qed.

Lemma dict_get_first {V : Type} (d : list (string * V)) (k : string) (v : V) :
  NoDup (keys d) -> In (k, v) d -> dict_get String.eqb d k = Some v.
Proof.
  induction d as [|[k' v'] d IH]; intros Hnd Hin; [contradiction |].
  simpl in Hnd. inversion Hnd as [|? ? Hnotin Hnd']; subst.
  simpl. destruct Hin as [E | Hin].
  - injection E as -> ->. now rewrite String.eqb_refl.
  - destruct (String.eqb_spec k' k) as [-> | Hne].
    + exfalso. apply Hnotin. unfold keys in *. now apply (in_map fst) in Hin.
    + now apply IH.
Qed.

Section Blocks.
Context {base : NetlisterBase}.

Lemma write_ports_written (module : PModule) (decls : list string) (self : Netlister) :
  mod_ports module <> [] ->
  Forall2 (fun pport decl => format_port_decl pport = inr decl) (mod_ports module) decls ->
  write_ports module self
  = (inr tt, written (block (indent self) "( " (separated "" decls) "); ") self).
Proof.
  intros Hne HF. unfold write_ports. rewrite (truthy_cons _ Hne).
  apply block_written. intros s.
  apply (for_enumerate_separated _ _ "" (len (mod_ports module))) with (2 := HF); [| lia].
  intros num x t s' Hx. unfold bind, lift. rewrite Hx, writeln_written.
  now rewrite append_nil_r.
Qed.

Lemma write_default_parameters_written (module : PModule) (decls : list string)
    (self : Netlister) :
  mod_default_parameters module <> [] ->
  NoDup (keys (mod_default_parameters module)) ->
  Forall2 (fun (item : string * PParameter) decl =>
             format_param_decl (fst item) (snd item) = inr decl)
          (mod_default_parameters module) decls ->
  write_default_parameters module self
  = (inr tt, written (block (indent self) "#( " (separated "" decls) ") ") self).
Proof.
  intros Hne Hnd HF. unfold write_default_parameters. rewrite (truthy_cons _ Hne).
  apply block_written. intros s.
  set (d := mod_default_parameters module) in *.
  assert (HF' : Forall2 (fun name decl =>
                           exists pparam, dict_get String.eqb d name = Some pparam /\
                                          format_param_decl name pparam = inr decl)
                        (keys d) decls).
  { assert (Hincl : incl d d) by apply incl_refl.
    revert Hincl HF. generalize d at 1 3 5 as l. intros l Hincl HF.
    induction HF as [|[k v] decl l ds H HF IH]; simpl; constructor.
    - exists v. split; [| exact H].
      apply dict_get_first; [exact Hnd | apply Hincl; now left].
    - apply IH. intros x Hx. apply Hincl. now right. }
  apply (for_enumerate_separated _ _ "" (len d)) with (2 := HF').
  - intros num x t s' (pparam & Hget & Hdecl). unfold bind, lift.
    rewrite Hget, Hdecl, writeln_written. now rewrite append_nil_r.
  - unfold len, keys. rewrite length_map. lia.
Qed.

Lemma write_parameter_values_written (pinst : PInstance) (pvals : list string)
    (self : Netlister) :
  inst_parameters pinst <> [] ->
  Forall2 (fun (item : string * PParameter) pval => get_param_value (snd item) = inr pval)
          (inst_parameters pinst) pvals ->
  write_parameter_values pinst self
  = (inr tt,
     written (block (indent self) "#( " (overrides (inst_parameters pinst) pvals) ") ") self).
Proof.
  intros Hne HF. unfold write_parameter_values. rewrite (truthy_cons _ Hne).
  apply block_written. intros s.
  apply (for_each_written _
           (fun (item : string * PParameter) t =>
              exists pval, get_param_value (snd item) = inr pval /\
                           t = fst item ++ "=" ++ pval ++ " ")).
  - intros [pname pparam] t s' (pval & Hv & ->). simpl in Hv.
    unfold bind, lift. rewrite Hv. apply writeln_written.
  - clear Hne. unfold overrides.
    induction HF as [|item pval l pv H HF IH]; simpl; constructor.
    + exists pval. now split.
    + exact IH.
Qed.

Lemma bindings_related (conns : list (string * Connection)) (port_order : list string)
    (cs : list Connection) :
  Forall2 (fun pname pconn => dict_get String.eqb conns pname = Some pconn) port_order cs ->
  Forall2 (fun pname t => exists pconn, dict_get String.eqb conns pname = Some pconn /\
                                        t = binding pname pconn)
          port_order (bindings port_order cs).
Proof.
  intros HF. unfold bindings.
  induction HF as [|pname pconn l cs' H HF IH]; simpl; constructor.
  - exists pconn. now split.
  - exact IH.
Qed.

Lemma connection_line_written (pinst : PInstance) (n num : Z) (pname t : string)
    (self : Netlister) :
  (exists pconn, dict_get String.eqb (inst_connections pinst) pname = Some pconn /\
                 t = binding pname pconn) ->
  match dict_get String.eqb (inst_connections pinst) pname with
  | None =>
      raise (RuntimeError ("Unconnected Port " ++ pname ++ " on " ++ inst_name pinst))
  | Some pconn =>
      let comma := comma_at num n in
      writeln ("." ++ pname ++ "(" ++ format_connection pconn ++ ")" ++ comma ++ " ")
  end self
  = (inr tt, written [ {| line_indent := indent self;
                          line_text := t ++ comma_at num n ++ " " |} ] self).
Proof.
  intros (pconn & Hget & ->). rewrite Hget. cbv zeta. rewrite writeln_written.
  unfold binding. simpl. repeat (rewrite append_assoc; simpl). reflexivity.
Qed.

Lemma write_connections_written (pinst : PInstance) (module : ModuleLike)
    (cs : list Connection) (self : Netlister) :
  ports module <> [] ->
  Forall2 (fun pname pconn => dict_get String.eqb (inst_connections pinst) pname = Some pconn)
          (port_names module) cs ->
  write_connections pinst module self
  = (inr tt,
     written (block (indent self) "( " (separated " " (bindings (port_names module) cs))
                    "); ") self).
Proof.
  intros Hne HF. unfold write_connections. rewrite (truthy_cons _ Hne).
  apply block_written. intros s. fold (port_names module).
  apply (for_enumerate_separated _ _ " " (len (port_names module)))
    with (2 := bindings_related _ _ _ HF); [| lia].
  intros num x t s' Hx. now apply connection_line_written.
Qed.

Lemma write_connections_raises (pinst : PInstance) (module : ModuleLike)
    (pre post : list string) (pname : string) (cs : list Connection) (self : Netlister) :
  port_names module = (pre ++ pname :: post)%list ->
  Forall2 (fun q pconn => dict_get String.eqb (inst_connections pinst) q = Some pconn) pre cs ->
  dict_get String.eqb (inst_connections pinst) pname = None ->
  write_connections pinst module self
  = (inl (RuntimeError ("Unconnected Port " ++ pname ++ " on " ++ inst_name pinst)),
     indented 1
       (written ({| line_indent := indent self; line_text := "( " |}
                   :: lines_at (indent self + 1)
                        (map (fun t => t ++ "," ++ " ") (bindings pre cs))) self)).
Proof.
  intros Hsplit HF Hnone. unfold write_connections.
  assert (Hne : ports module <> []).
  { intros E. unfold port_names in Hsplit. rewrite E in Hsplit. simpl in Hsplit.
    destruct pre; discriminate. }
  rewrite (truthy_cons _ Hne).
  apply block_raises. intros s. fold (port_names module). rewrite Hsplit.
  apply (for_enumerate_raises _ _ " " (len (pre ++ pname :: post)))
    with (3 := bindings_related _ _ _ HF); [| | lia].
  - intros num x t s' Hx. now apply connection_line_written.
  - intros num s'. now rewrite Hnone.
Qed.
End Blocks.

(** ** Whole instances *)

Section InstanceFacts.
Context {base : NetlisterBase}.

Lemma write_parameter_values_lines (pinst : PInstance) (pvals : list string)
    (self : Netlister) :
  Forall2 (fun (item : string * PParameter) pval => get_param_value (snd item) = inr pval)
          (inst_parameters pinst) pvals ->
  write_parameter_values pinst self
  = (inr tt,
     written (parameter_value_lines (indent self) (inst_parameters pinst) pvals) self).
Proof.
  intros HF. unfold parameter_value_lines.
  destruct (inst_parameters pinst) as [|item params] eqn:E.
  - unfold write_parameter_values. rewrite E. reflexivity.
  - cbn [truthy]. rewrite <- E.
    apply write_parameter_values_written; rewrite E; [discriminate | exact HF].
Qed.

Lemma bindings_nth_error (port_order : list string) (cs : list Connection)
    (i : nat) (pname : string) (pconn : Connection) :
  nth_error port_order i = Some pname ->
  nth_error cs i = Some pconn ->
  nth_error (bindings port_order cs) i = Some (binding pname pconn).
Proof.
  revert cs i. unfold bindings.
  induction port_order as [|q l IH]; intros cs i Hp Hc.
  - destruct i; discriminate.
  - destruct cs as [|c cs]; [destruct i; discriminate |].
    destruct i as [|i]; simpl in *.
    + injection Hp as ->. injection Hc as ->. reflexivity.
    + now apply IH.
Qed.

Lemma for_enumerate_ext {A : Type} (body1 body2 : Z -> A -> M unit) (l : list A) :
  (forall num x self, body1 num x self = body2 num x self) ->
  forall num self, for_enumerate body1 num l self = for_enumerate body2 num l self.
Proof.
  intros H. induction l as [|x l IH]; intros num self; [reflexivity |].
  simpl. unfold bind. rewrite H.
  destruct (body2 num x self) as [[e | []] s']; [reflexivity | apply IH].
Qed.

Lemma dict_get_In {V : Type} (d : list (string * V)) (k : string) (v : V) :
  dict_get String.eqb d k = Some v -> In (k, v) d.
Proof.
  induction d as [|[k' v'] d IH]; simpl; [discriminate |].
  destruct (String.eqb_spec k' k) as [-> | Hne].
  - intros [= ->]. now left.
  - intros H. right. now apply IH.
Qed.

Lemma dict_get_None {V : Type} (d : list (string * V)) (k : string) :
  dict_get String.eqb d k = None -> ~ In k (keys d).
Proof.
  induction d as [|[k' v'] d IH]; simpl; [tauto |].
  destruct (String.eqb_spec k' k) as [-> | Hne]; [discriminate |].
  intros H [E | Hin]; [contradiction | now apply IH].
Qed.

(** Looking a key up does not depend on the order of a mapping. *)
Lemma dict_get_Permutation {V : Type} (d d' : list (string * V)) (k : string) :
  NoDup (keys d) -> Permutation d d' ->
  dict_get String.eqb d k = dict_get String.eqb d' k.
Proof.
  intros Hnd Hperm.
  assert (Hnd' : NoDup (keys d')).
  { unfold keys. eapply Permutation_NoDup; [apply Permutation_map, Hperm | exact Hnd]. }
  destruct (dict_get String.eqb d k) as [v |] eqn:E.
  - symmetry. apply dict_get_first; [exact Hnd' |].
    eapply Permutation_in; [exact Hperm | now apply dict_get_In].
  - destruct (dict_get String.eqb d' k) as [v' |] eqn:E'; [| reflexivity].
    exfalso. apply (dict_get_None _ _ E).
    apply dict_get_In in E'. apply (Permutation_in _ (Permutation_sym Hperm)) in E'.
    unfold keys. now apply (in_map fst) in E'.
Qed.

Lemma bind_ext {A B : Type} (c1 c2 : M A) (k1 k2 : A -> M B) (self : Netlister) :
  (forall s, c1 s = c2 s) -> (forall a s, k1 a s = k2 a s) ->
  bind c1 k1 self = bind c2 k2 self.
Proof.
  intros Hc Hk. unfold bind. rewrite Hc.
  destruct (c2 self) as [[e | a] s']; [reflexivity | apply Hk].
Qed.

(** The connection block depends on the connection mapping through its
    lookups only. *)
Lemma write_connections_ext (pinst pinst' : PInstance) (module : ModuleLike)
    (self : Netlister) :
  inst_name pinst' = inst_name pinst ->
  (forall pname, dict_get String.eqb (inst_connections pinst') pname
                 = dict_get String.eqb (inst_connections pinst) pname) ->
  write_connections pinst' module self = write_connections pinst module self.
Proof.
  intros Hname Hget. unfold write_connections.
  destruct (truthy (ports module)); [| reflexivity].
  apply bind_ext; [reflexivity | intros _ s1].
  apply bind_ext; [reflexivity | intros _ s2].
  apply bind_ext; [| reflexivity].
  intros s3. apply for_enumerate_ext. intros num x s4.
  now rewrite Hget, Hname.
Qed.

Lemma write_instance_ext (pinst pinst' : PInstance) (self : Netlister) :
  inst_name pinst' = inst_name pinst ->
  inst_module pinst' = inst_module pinst ->
  inst_parameters pinst' = inst_parameters pinst ->
  (forall pname, dict_get String.eqb (inst_connections pinst') pname
                 = dict_get String.eqb (inst_connections pinst) pname) ->
  write_instance pinst' self = write_instance pinst self.
Proof.
  intros Hname Hmod Hparams Hget. unfold write_instance. rewrite Hmod, Hname.
  apply bind_ext; [reflexivity | intros target s1]. cbv zeta.
  apply bind_ext; [reflexivity | intros _ s2].
  apply bind_ext; [| intros _ s3].
  - intros s. unfold write_parameter_values. now rewrite Hparams.
  - apply bind_ext; [reflexivity | intros _ s4].
    apply bind_ext; [| reflexivity].
    intros s. now apply write_connections_ext.
Qed.

Lemma Forall2_nth_error {X Y : Type} (R : X -> Y -> Prop) (l : list X) (l' : list Y)
    (i : nat) (x : X) :
  Forall2 R l l' -> nth_error l i = Some x ->
  exists y, nth_error l' i = Some y /\ R x y.
Proof.
  intros HF. revert i. induction HF as [|a b l l' H HF IH]; intros [|i] Hi;
    simpl in *; try discriminate.
  - injection Hi as ->. eauto.
  - now apply IH.
Qed.

(** The lines of an instance whose target has ports, all connected. *)
Lemma write_instance_written (pinst : PInstance) (self : Netlister)
    (target : ResolvedModule) (pvals : list string) (cs : list Connection) :
  resolve_reference (pmodules self) (inst_module pinst) = inr target ->
  Forall2 (fun (item : string * PParameter) pval => get_param_value (snd item) = inr pval)
          (inst_parameters pinst) pvals ->
  ports (rm_module target) <> [] ->
  Forall2 (fun pname pconn => dict_get String.eqb (inst_connections pinst) pname = Some pconn)
          (port_names (rm_module target)) cs ->
  write_instance pinst self
  = (inr tt,
     written
       ({| line_indent := indent self; line_text := rm_module_name target |}
          :: parameter_value_lines (indent self) (inst_parameters pinst) pvals
          ++ {| line_indent := indent self; line_text := inst_name pinst |}
          :: block (indent self) "( "
               (separated " " (bindings (port_names (rm_module target)) cs)) "); "
          ++ [ {| line_indent := indent self; line_text := "" |} ])
       self).
Proof.
  intros Hres Hpv Hne Hcs. unfold write_instance.
  unfold bind at 1. unfold lift at 1. rewrite Hres. cbv zeta.
  unfold bind at 1. rewrite writeln_written.
  unfold bind at 1. rewrite (write_parameter_values_lines _ _ _ Hpv).
  unfold bind at 1. rewrite writeln_written.
  unfold bind at 1. rewrite (write_connections_written _ _ _ _ Hne Hcs).
  rewrite writeln_written, !written_app. simpl indent.
  rewrite <- ?app_assoc. reflexivity.
Qed.

(** The lines of an instance that leaves a port of its target open. *)
Lemma write_instance_raises (pinst : PInstance) (self : Netlister)
    (target : ResolvedModule) (pvals : list string)
    (pre post : list string) (pname : string) (cs : list Connection) :
  resolve_reference (pmodules self) (inst_module pinst) = inr target ->
  Forall2 (fun (item : string * PParameter) pval => get_param_value (snd item) = inr pval)
          (inst_parameters pinst) pvals ->
  port_names (rm_module target) = (pre ++ pname :: post)%list ->
  Forall2 (fun q pconn => dict_get String.eqb (inst_connections pinst) q = Some pconn) pre cs ->
  dict_get String.eqb (inst_connections pinst) pname = None ->
  write_instance pinst self
  = (inl (RuntimeError ("Unconnected Port " ++ pname ++ " on " ++ inst_name pinst)),
     indented 1
       (written
          ({| line_indent := indent self; line_text := rm_module_name target |}
             :: parameter_value_lines (indent self) (inst_parameters pinst) pvals
             ++ {| line_indent := indent self; line_text := inst_name pinst |}
             :: {| line_indent := indent self; line_text := "( " |}
             :: lines_at (indent self + 1)
                  (map (fun t => t ++ "," ++ " ") (bindings pre cs)))
          self)).
Proof.
  intros Hres Hpv Hsplit Hcs Hnone. unfold write_instance.
  unfold bind at 1. unfold lift at 1. rewrite Hres. cbv zeta.
  unfold bind at 1. rewrite writeln_written.
  unfold bind at 1. rewrite (write_parameter_values_lines _ _ _ Hpv).
  unfold bind at 1. rewrite writeln_written.
  unfold bind at 1.
  rewrite (write_connections_raises _ _ _ _ _ _ _ Hsplit Hcs Hnone).
  rewrite !written_app. simpl indent.
  rewrite <- ?app_assoc. reflexivity.
Qed.
End InstanceFacts.

(** ** Independence of what the destination holds *)

Lemma after_sink_nil (self : Netlister) : after_sink [] self = self.
Proof. now destruct self. Qed.

Lemma new_netlister_after_sink (sink : list Line) :
  new_netlister sink = after_sink sink (new_netlister []).
Proof. unfold new_netlister, after_sink. simpl. now rewrite app_nil_r. Qed.

Section SinkIndependence.
Context {A B : Type}.

Lemma si_ret (a : A) : sink_independent (ret a).
Proof. intros sink self. reflexivity. Qed.

Lemma si_raise (e : Exc) : sink_independent (@raise A e).
Proof. intros sink self. reflexivity. Qed.

Lemma si_lift (r : Exc + A) : sink_independent (lift r).
Proof. intros sink self. reflexivity. Qed.

(** A body that reads the registry and the module map only. *)
Lemma si_read (f : list string -> list (string * PModule) -> Exc + A) :
  sink_independent (fun self => lift (f (module_names self) (pmodules self)) self).
Proof. intros sink self. reflexivity. Qed.

Lemma si_bind (c : M A) (k : A -> M B) :
  sink_independent c -> (forall a, sink_independent (k a)) ->
  sink_independent (bind c k).
Proof.
  intros Hc Hk sink self. unfold bind. rewrite Hc.
  destruct (c self) as [[e | a] self']; simpl; [reflexivity | apply Hk].
Qed.
End SinkIndependence.

Lemma si_for_each {A : Type} (body : A -> M unit) (l : list A) :
  (forall x, sink_independent (body x)) -> sink_independent (for_each body l).
Proof.
  intros H. induction l as [|x l IH]; simpl.
  - apply si_ret.
  - apply si_bind; [apply H | intros _; exact IH].
Qed.

Lemma si_for_enumerate {A : Type} (body : Z -> A -> M unit) (l : list A) (num : Z) :
  (forall n x, sink_independent (body n x)) ->
  sink_independent (for_enumerate body num l).
Proof.
  intros H. revert num. induction l as [|x l IH]; intros num; simpl.
  - apply si_ret.
  - apply si_bind; [apply H | intros _; apply IH].
Qed.

Lemma si_writeln (s : string) : sink_independent (writeln s).
Proof.
  intros sink self. unfold writeln, after_sink. simpl. now rewrite app_assoc.
Qed.

Lemma si_indent_add (n : Z) : sink_independent (indent_add n).
Proof. intros sink self. reflexivity. Qed.

Lemma si_module_names_add (name : string) : sink_independent (module_names_add name).
Proof. intros sink self. reflexivity. Qed.

Lemma si_pmodules_set (name : string) (module : PModule) :
  sink_independent (pmodules_set name module).
Proof. intros sink self. reflexivity. Qed.

Create HintDb sink.
#[export] Hint Resolve si_ret si_raise si_lift si_writeln si_indent_add
  si_module_names_add si_pmodules_set : sink.

(** Splits a method body along its binds, loops and branches. *)
Ltac si_step :=
  match goal with
  | |- sink_independent (bind _ _) => apply si_bind; [| intros]
  | |- sink_independent (for_each _ _) => apply si_for_each; intros
  | |- sink_independent (for_enumerate _ _ _) => apply si_for_enumerate; intros
  | |- sink_independent (if ?b then _ else _) => destruct b
  | |- sink_independent (match ?x with _ => _ end) => destruct x
  | |- sink_independent (let (_, _) := ?x in _) => destruct x
  | |- sink_independent _ => solve [auto with sink]
  end.

Section WriterSinkIndependence.
Context {base : NetlisterBase}.

Lemma si_write_instance (pinst : PInstance) : sink_independent (write_instance pinst).
Proof.
  unfold write_instance. apply si_bind.
  - apply (si_read (fun _ pmods => resolve_reference pmods (inst_module pinst))).
  - intros target. cbv zeta.
    unfold write_parameter_values, write_connections. repeat si_step.
Qed.

Lemma si_write_module_definition (module : PModule) :
  sink_independent (write_module_definition module).
Proof.
  unfold write_module_definition. cbv zeta. apply si_bind.
  - apply (si_read (fun names _ => inr (set_mem (get_module_name module) names))).
  - intros in_names.
    unfold write_default_parameters, write_ports, write_signals, write_instances.
    repeat first [ apply si_write_instance | si_step ].
Qed.

Lemma si_emission_pass (modules : list PModule) :
  sink_independent (emission_pass modules).
Proof.
  unfold emission_pass. apply si_for_each. apply si_write_module_definition.
Qed.
End WriterSinkIndependence.

(** ** The name registry *)

Lemma kn_bind {A B : Type} (c : M A) (k : A -> M B) :
  keeps_names c -> (forall a, keeps_names (k a)) -> keeps_names (bind c k).
Proof.
  intros Hc Hk self. unfold bind. specialize (Hc self).
  destruct (c self) as [[e | a] self']; simpl in *; [exact Hc |].
  now rewrite Hk.
Qed.

Lemma kn_pure {A : Type} (f : Netlister -> Exc + A) :
  keeps_names (fun self => lift (f self) self).
Proof. intros self. reflexivity. Qed.

Lemma kn_for_each {A : Type} (body : A -> M unit) (l : list A) :
  (forall x, keeps_names (body x)) -> keeps_names (for_each body l).
Proof.
  intros H. induction l as [|x l IH]; simpl.
  - intros self. reflexivity.
  - apply kn_bind; [apply H | intros _; exact IH].
Qed.

Lemma kn_for_enumerate {A : Type} (body : Z -> A -> M unit) (l : list A) (num : Z) :
  (forall n x, keeps_names (body n x)) -> keeps_names (for_enumerate body num l).
Proof.
  intros H. revert num. induction l as [|x l IH]; intros num; simpl.
  - intros self. reflexivity.
  - apply kn_bind; [apply H | intros _; apply IH].
Qed.

Ltac kn_step :=
  match goal with
  | |- keeps_names (bind _ _) => apply kn_bind; [| intros]
  | |- keeps_names (for_each _ _) => apply kn_for_each; intros
  | |- keeps_names (for_enumerate _ _ _) => apply kn_for_enumerate; intros
  | |- keeps_names (if ?b then _ else _) => destruct b
  | |- keeps_names (match ?x with _ => _ end) => destruct x
  | |- keeps_names (let (_, _) := ?x in _) => destruct x
  | |- keeps_names _ => solve [intros ?; reflexivity]
  end.

Section Registry.
Context {base : NetlisterBase}.

Lemma kn_write_instance (pinst : PInstance) : keeps_names (write_instance pinst).
Proof.
  unfold write_instance. apply kn_bind.
  - apply (kn_pure (fun self => resolve_reference (pmodules self) (inst_module pinst))).
  - intros target. cbv zeta.
    unfold write_parameter_values, write_connections. repeat kn_step.
Qed.

Lemma set_mem_In (name : string) (names : list string) :
  set_mem name names = true <-> In name names.
Proof.
  unfold set_mem. rewrite existsb_exists. split.
  - intros (x & Hin & E). apply String.eqb_eq in E. now subst.
  - intros H. exists name. split; [exact H | apply String.eqb_refl].
Qed.

(** A module that is not a duplicate has its name registered, whether
    the rest of its definition is written or raises. *)
Lemma write_module_definition_registers (module : PModule) (self : Netlister) :
  ~ In (get_module_name module) (module_names self) ->
  module_names (snd (write_module_definition module self))
  = (module_names self ++ [get_module_name module])%list.
Proof.
  intros Hnot. unfold write_module_definition. cbv zeta.
  unfold bind at 1. unfold ret at 1.
  destruct (set_mem (get_module_name module) (module_names self)) eqn:E.
  - apply set_mem_In in E. contradiction.
  - unfold bind at 1. unfold module_names_add at 1.
    match goal with
    | |- module_names (snd (?c ?s)) = _ =>
        assert (K : keeps_names c); [| rewrite (K s)]
    end.
    + unfold write_default_parameters, write_ports, write_signals, write_instances.
      repeat first [ apply kn_write_instance | kn_step ].
    + simpl. unfold set_add. now rewrite E.
Qed.
End Registry.

Lemma duplicate_raises {base : NetlisterBase} (module : PModule) (self : Netlister) :
  In (get_module_name module) (module_names self) ->
  write_module_definition module self
  = (inl (RuntimeError ("Module " ++ get_module_name module ++ " doubly defined")), self).
Proof.
  intros H. apply set_mem_In in H.
  unfold write_module_definition. cbv zeta. unfold bind, ret. now rewrite H.
Qed.

(** C2: when the name a module is netlisted under is already in the name
    registry of the pass, [write_module_definition] raises the error that
    names it, and the netlister is left as it was: no line is written. *)
Theorem C2_write_module_definition_duplicate
    {base : NetlisterBase} (module : PModule) (self : Netlister) :
  In (get_module_name module) (module_names self) ->
  write_module_definition module self
  = (inl (RuntimeError ("Module " ++ get_module_name module ++ " doubly defined")), self).
Proof. apply duplicate_raises. Qed.

Lemma C2_write_module_definition_duplicate_witness :
  @write_module_definition (demo_base []) leaf after_leaf
  = (inl (RuntimeError "Module leaf doubly defined"), after_leaf).
Proof.
  apply (@C2_write_module_definition_duplicate (demo_base []) leaf after_leaf).
  simpl. left. reflexivity.
Defined.

(** A module written twice in one pass: the second definition raises, and
    the destination holds the lines of the first only. *)
Lemma write_module_definition_twice {base : NetlisterBase} (module : PModule)
    (self : Netlister) :
  ~ In (get_module_name module) (module_names self) ->
  forall self', snd (write_module_definition module self) = self' ->
  write_module_definition module self'
  = (inl (RuntimeError ("Module " ++ get_module_name module ++ " doubly defined")), self').
Proof.
  intros Hnot self' <-. apply duplicate_raises.
  rewrite write_module_definition_registers by exact Hnot.
  apply in_or_app. right. now left.
Qed.

(** ** The separator law *)

(** The three blocks on their own: for ports whose declarations [decls]
    can all be formatted, the port block holds one entry per port between
    its opener and closer, every entry but the last being its declaration
    followed by a comma and the last its declaration alone; the same holds
    for the block of default parameters, and for the connection block of an
    instance, whose entries end in a blank behind the comma, if any. *)
Lemma block_separator_law {base : NetlisterBase} :
  (forall (module : PModule) (decls : list string) (self : Netlister),
      mod_ports module <> [] ->
      Forall2 (fun pport decl => format_port_decl pport = inr decl) (mod_ports module) decls ->
      write_ports module self
      = (inr tt, written (block (indent self) "( " (separated "" decls) "); ") self) /\
      length (separated "" decls) = length (mod_ports module) /\
      forall i, (i < length (mod_ports module))%nat ->
        nth i (separated "" decls) ""
        = if (S i =? length (mod_ports module))%nat
          then nth i decls "" else nth i decls "" ++ ",") /\
  (forall (module : PModule) (decls : list string) (self : Netlister),
      mod_default_parameters module <> [] ->
      NoDup (keys (mod_default_parameters module)) ->
      Forall2 (fun (item : string * PParameter) decl =>
                 format_param_decl (fst item) (snd item) = inr decl)
              (mod_default_parameters module) decls ->
      write_default_parameters module self
      = (inr tt, written (block (indent self) "#( " (separated "" decls) ") ") self) /\
      length (separated "" decls) = length (mod_default_parameters module) /\
      forall i, (i < length (mod_default_parameters module))%nat ->
        nth i (separated "" decls) ""
        = if (S i =? length (mod_default_parameters module))%nat
          then nth i decls "" else nth i decls "" ++ ",") /\
  (forall (pinst : PInstance) (module : ModuleLike) (cs : list Connection)
          (self : Netlister),
      ports module <> [] ->
      Forall2 (fun pname pconn =>
                 dict_get String.eqb (inst_connections pinst) pname = Some pconn)
              (port_names module) cs ->
      write_connections pinst module self
      = (inr tt,
         written (block (indent self) "( "
                        (separated " " (bindings (port_names module) cs)) "); ") self) /\
      length (separated " " (bindings (port_names module) cs)) = length (ports module) /\
      forall i, (i < length (ports module))%nat ->
        nth i (separated " " (bindings (port_names module) cs)) ""
        = if (S i =? length (ports module))%nat
          then nth i (bindings (port_names module) cs) "" ++ " "
          else nth i (bindings (port_names module) cs) "" ++ ", ").
Proof.
  split; [| split].
  - intros module decls self Hne HF.
    pose proof (Forall2_length HF) as Hlen.
    split; [now apply write_ports_written |].
    split; [now rewrite separated_length |].
    intros i Hi. rewrite separated_nth by lia. rewrite Hlen.
    destruct (S i =? length decls)%nat; now rewrite ?append_nil_r.
  - intros module decls self Hne Hnd HF.
    pose proof (Forall2_length HF) as Hlen.
    split; [now apply write_default_parameters_written |].
    split; [now rewrite separated_length |].
    intros i Hi. rewrite separated_nth by lia. rewrite Hlen.
    destruct (S i =? length decls)%nat; now rewrite ?append_nil_r.
  - intros pinst module cs self Hne HF.
    pose proof (Forall2_length HF) as Hlen.
    assert (Hb : length (bindings (port_names module) cs) = length (ports module)).
    { unfold bindings. rewrite length_map, length_combine, <- Hlen, Nat.min_id.
      unfold port_names. apply length_map. }
    split; [now apply write_connections_written |].
    split; [now rewrite separated_length |].
    intros i Hi. rewrite separated_nth by lia. rewrite Hb. reflexivity.
Qed.

Example block_separator_law_samples :
  @write_ports (demo_base []) leaf (new_netlister [])
  = (inr tt,
     written (block 0 "( " ["input wire a,"; "output wire [7:0] b"] "); ")
             (new_netlister [])) /\
  @write_default_parameters (demo_base []) leaf (new_netlister [])
  = (inr tt,
     written (block 0 "#( " ["parameter w = 8,"; "parameter d"] ") ") (new_netlister [])) /\
  @write_connections (demo_base []) inst_ok (LocalModule leaf) (new_netlister [])
  = (inr tt,
     written (block 0 "( " [".a(a), "; ".b(x[7:0]) "] "); ") (new_netlister [])).
Proof.
  pose proof (@block_separator_law (demo_base [])) as (Hports & Hparams & Hconns).
  split; [| split].
  - refine (proj1 (Hports leaf ["input wire a"; "output wire [7:0] b"] (new_netlister [])
                          _ _)).
    + discriminate.
    + repeat constructor.
  - refine (proj1 (Hparams leaf ["parameter w = 8"; "parameter d"] (new_netlister [])
                           _ _ _)).
    + discriminate.
    + repeat constructor; simpl; intuition discriminate.
    + repeat constructor.
  - refine (proj1 (Hconns inst_ok (LocalModule leaf)
                          [ConnSig sig_a;
                           ConnSlice {| slice_signal := "x"; slice_top := 7; slice_bot := 0 |}]
                          (new_netlister []) _ _)).
    + discriminate.
    + repeat constructor.
Qed.

(** ** Instances *)

(** The first port without a connection, and the connections of the
    ports before it. *)
Lemma first_unconnected (conns : list (string * Connection)) (port_order : list string) :
  (exists q, In q port_order /\ dict_get String.eqb conns q = None) ->
  exists pre pname post cs,
    port_order = (pre ++ pname :: post)%list /\
    Forall2 (fun q pconn => dict_get String.eqb conns q = Some pconn) pre cs /\
    dict_get String.eqb conns pname = None.
Proof.
  induction port_order as [|p l IH]; intros (q & Hin & Hq); [contradiction |].
  destruct (dict_get String.eqb conns p) as [c |] eqn:E.
  - destruct IH as (pre & pname & post & cs & -> & HF & Hnone).
    + destruct Hin as [-> | Hin]; [congruence | eauto].
    + exists (p :: pre), pname, post, (c :: cs). repeat split; [| exact Hnone].
      now constructor.
  - exists [], p, l, []. repeat split; [constructor | exact E].
Qed.

(** The connections of ports that are all connected. *)
Lemma covered_connections (conns : list (string * Connection)) (port_order : list string) :
  (forall q, In q port_order -> dict_get String.eqb conns q <> None) ->
  exists cs, Forall2 (fun q pconn => dict_get String.eqb conns q = Some pconn) port_order cs.
Proof.
  induction port_order as [|p l IH]; intros H.
  - exists []. constructor.
  - destruct IH as (cs & HF); [intros q Hq; apply H; now right |].
    destruct (dict_get String.eqb conns p) as [c |] eqn:E.
    + exists (c :: cs). now constructor.
    + exfalso. apply (H p); [now left | exact E].
Qed.

(** C4: for an instance whose reference resolves to a target with ports,
    every one of which has an entry in the connection mapping (and whose
    parameter values can be formatted), [write_instance] writes the
    connection block with one named binding per port of the target, the
    i-th binding being that of the target's i-th port; an instance that
    differs only in the order of its connection mapping is written in the
    same way. *)
Theorem C4_write_instance_port_order {base : NetlisterBase}
    (pinst : PInstance) (self : Netlister) (target : ResolvedModule)
    (pvals : list string) :
  resolve_reference (pmodules self) (inst_module pinst) = inr target ->
  Forall2 (fun (item : string * PParameter) pval => get_param_value (snd item) = inr pval)
          (inst_parameters pinst) pvals ->
  ports (rm_module target) <> [] ->
  (forall pname, In pname (port_names (rm_module target)) ->
     dict_get String.eqb (inst_connections pinst) pname <> None) ->
  exists cs : list Connection,
    Forall2 (fun pname pconn =>
               dict_get String.eqb (inst_connections pinst) pname = Some pconn)
            (port_names (rm_module target)) cs /\
    write_instance pinst self
    = (inr tt,
       written
         ({| line_indent := indent self; line_text := rm_module_name target |}
            :: parameter_value_lines (indent self) (inst_parameters pinst) pvals
            ++ {| line_indent := indent self; line_text := inst_name pinst |}
            :: block (indent self) "( "
                 (separated " " (bindings (port_names (rm_module target)) cs)) "); "
            ++ [ {| line_indent := indent self; line_text := "" |} ])
         self) /\
    (forall i pport, nth_error (ports (rm_module target)) i = Some pport ->
       exists pconn,
         dict_get String.eqb (inst_connections pinst) (sig_name (port_signal pport))
         = Some pconn /\
         nth_error (bindings (port_names (rm_module target)) cs) i
         = Some ("." ++ sig_name (port_signal pport) ++ "("
                     ++ format_connection pconn ++ ")")) /\
    (forall pinst' : PInstance,
       inst_name pinst' = inst_name pinst ->
       inst_module pinst' = inst_module pinst ->
       inst_parameters pinst' = inst_parameters pinst ->
       NoDup (keys (inst_connections pinst)) ->
       Permutation (inst_connections pinst) (inst_connections pinst') ->
       write_instance pinst' self = write_instance pinst self).
Proof.
  intros Hres Hpv Hne Hcov.
  destruct (covered_connections _ _ Hcov) as (cs & Hcs).
  exists cs. split; [exact Hcs |]. split; [| split].
  - now apply write_instance_written.
  - intros i pport Hi.
    assert (Hn : nth_error (port_names (rm_module target)) i
                 = Some (sig_name (port_signal pport))).
    { unfold port_names.
      now apply (map_nth_error (fun pport => sig_name (port_signal pport))). }
    destruct (Forall2_nth_error _ _ _ _ _ Hcs Hn) as (pconn & Hc & Hget).
    exists pconn. split; [exact Hget |].
    now apply bindings_nth_error.
  - intros pinst' Hname Hmod Hparams Hnd Hperm.
    apply write_instance_ext; try assumption.
    intros pname. symmetry. now apply dict_get_Permutation.
Qed.

Lemma C4_write_instance_port_order_witness :
  @write_instance (demo_base []) inst_ok_swapped after_leaf
  = @write_instance (demo_base []) inst_ok after_leaf.
Proof.
  destruct (@C4_write_instance_port_order (demo_base []) inst_ok after_leaf
              {| rm_module := LocalModule leaf; rm_module_name := "leaf" |}
              ["4"; "2"] eq_refl) as (cs & _ & _ & _ & Hperm).
  - repeat constructor.
  - discriminate.
  - intros pname [<- | [<- | []]]; discriminate.
  - apply Hperm; try reflexivity.
    + repeat constructor; simpl; intuition discriminate.
    + apply perm_swap.
Defined.

(** The instance [inst_ok], run: the bindings follow the ports [a], [b] of
    [leaf], not the order b, a of its connection mapping. *)
Example write_instance_sample :
  @write_instance (demo_base []) inst_ok after_leaf
  = (inr tt,
     written
       (lines_at 1 ["leaf"] ++ block 1 "#( " ["w=4 "; "d=2 "] ") " ++ lines_at 1 ["i0"]
          ++ block 1 "( " [".a(a), "; ".b(x[7:0]) "] "); " ++ lines_at 1 [""])
       after_leaf).
Proof. reflexivity. Qed.

(** C5: for an instance whose reference resolves (and whose parameter
    values can be formatted), if some port of the target has no entry in
    the connection mapping, then there is a first such port [pname], after
    the connected ports [pre] and before the ports [post]; and
    [write_instance] raises the error that names [pname] and the instance,
    leaving in the destination the lines up to the opener of the connection
    block and the bindings of [pre], each with its comma, and nothing for
    [pname] or for [post]; the indent stays one level in. *)
Theorem C5_write_instance_unconnected {base : NetlisterBase}
    (pinst : PInstance) (self : Netlister) (target : ResolvedModule)
    (pvals : list string) :
  resolve_reference (pmodules self) (inst_module pinst) = inr target ->
  Forall2 (fun (item : string * PParameter) pval => get_param_value (snd item) = inr pval)
          (inst_parameters pinst) pvals ->
  (exists q, In q (port_names (rm_module target)) /\
             dict_get String.eqb (inst_connections pinst) q = None) ->
  exists (pre post : list string) (pname : string) (cs : list Connection),
    port_names (rm_module target) = (pre ++ pname :: post)%list /\
    Forall2 (fun q pconn => dict_get String.eqb (inst_connections pinst) q = Some pconn)
            pre cs /\
    dict_get String.eqb (inst_connections pinst) pname = None /\
    write_instance pinst self
    = (inl (RuntimeError ("Unconnected Port " ++ pname ++ " on " ++ inst_name pinst)),
       {| module_names := module_names self;
          pmodules := pmodules self;
          indent := indent self + 1;
          dest :=
            (dest self
               ++ {| line_indent := indent self; line_text := rm_module_name target |}
               :: parameter_value_lines (indent self) (inst_parameters pinst) pvals
               ++ {| line_indent := indent self; line_text := inst_name pinst |}
               :: {| line_indent := indent self; line_text := "( " |}
               :: lines_at (indent self + 1)
                    (map (fun t : string => (t ++ ", ")%string) (bindings pre cs)))%list |}).
Proof.
  intros Hres Hpv Hopen.
  destruct (first_unconnected _ _ Hopen) as (pre & pname & post & cs & Hsplit & Hcs & Hnone).
  exists pre, post, pname, cs. repeat split; try assumption.
  now rewrite (write_instance_raises _ _ _ _ _ _ _ _ Hres Hpv Hsplit Hcs Hnone).
Qed.

Lemma C5_write_instance_unconnected_witness :
  exists (pre post : list string) (pname : string) (cs : list Connection),
    port_names (LocalModule leaf) = (pre ++ pname :: post)%list /\
    Forall2 (fun q pconn => dict_get String.eqb (inst_connections inst_open) q = Some pconn)
            pre cs /\
    dict_get String.eqb (inst_connections inst_open) pname = None /\
    @write_instance (demo_base []) inst_open after_leaf
    = (inl (RuntimeError ("Unconnected Port " ++ pname ++ " on i1")),
       {| module_names := ["leaf"];
          pmodules := [("leaf", leaf)];
          indent := 2;
          dest := (lines_at 1 ["leaf"; "// No parameters "; "i1"; "( "]
                     ++ lines_at 2 (map (fun t : string => (t ++ ", ")%string)
                                        (@bindings (demo_base []) pre cs)))%list |}).
Proof.
  apply (@C5_write_instance_unconnected (demo_base []) inst_open after_leaf
           {| rm_module := LocalModule leaf; rm_module_name := "leaf" |} []).
  - reflexivity.
  - constructor.
  - exists "b". split; [simpl; tauto | reflexivity].
Defined.

(** The instance [inst_open], run: port [a] is bound, port [b] raises. *)
Example write_instance_unconnected_sample :
  @write_instance (demo_base []) inst_open after_leaf
  = (inl (RuntimeError "Unconnected Port b on i1"),
     {| module_names := ["leaf"];
        pmodules := [("leaf", leaf)];
        indent := 2;
        dest := lines_at 1 ["leaf"; "// No parameters "; "i1"; "( "]
                         ++ lines_at 2 [".a(a), "] |}).
Proof. reflexivity. Qed.

(** The parameter-value block on its own: for an instance with at least
    one parameter value (all of which can be formatted), it holds, between
    its opener
    and closer, one line per entry of the mapping in its order, the i-th
    line being the i-th name, an equals sign, the text of the i-th value
    and a blank; every line, the last and the others alike, ends in that
    blank and in no comma. *)
Lemma write_parameter_values_entries {base : NetlisterBase}
    (pinst : PInstance) (pvals : list string) (self : Netlister) :
  inst_parameters pinst <> [] ->
  Forall2 (fun (item : string * PParameter) pval => get_param_value (snd item) = inr pval)
          (inst_parameters pinst) pvals ->
  write_parameter_values pinst self
  = (inr tt,
     written (block (indent self) "#( " (overrides (inst_parameters pinst) pvals) ") ") self) /\
  length (overrides (inst_parameters pinst) pvals) = length (inst_parameters pinst) /\
  (forall i pname pparam,
     nth_error (inst_parameters pinst) i = Some (pname, pparam) ->
     exists pval, get_param_value pparam = inr pval /\
                  nth_error (overrides (inst_parameters pinst) pvals) i
                  = Some (pname ++ "=" ++ pval ++ " ")) /\
  (forall entry, In entry (overrides (inst_parameters pinst) pvals) ->
     last_char entry = Some " "%char /\ last_char entry <> Some ","%char).
Proof.
  intros Hne HF. split; [now apply write_parameter_values_written |].
  pose proof (Forall2_length HF) as Hlen. unfold overrides.
  split; [| split].
  - now rewrite length_map, length_combine, <- Hlen, Nat.min_id.
  - intros i pname pparam Hi.
    destruct (Forall2_nth_error _ _ _ _ _ HF Hi) as (pval & Hv & Hget).
    exists pval. split; [exact Hget |].
    assert (Hc : nth_error (combine (inst_parameters pinst) pvals) i
                 = Some (pname, pparam, pval)).
    { clear - Hi Hv. revert pvals i Hi Hv.
      induction (inst_parameters pinst) as [|item l IH]; intros [|v vs] [|i] Hi Hv;
        simpl in *; try discriminate.
      - now injection Hi as ->; injection Hv as ->.
      - now apply IH. }
    now rewrite (map_nth_error _ _ _ Hc).
  - intros entry Hin. apply in_map_iff in Hin as ([[pname pparam] pval] & <- & _).
    cbn [fst snd]. rewrite last_char_override. split; [reflexivity | discriminate].
Qed.

(** ** Two passes *)

(** Two emission passes over the same modules, each starting from a
    netlister of its own with an empty name registry and an empty module
    map, end in the same way (both complete, or both raise the same
    exception), and write the same lines behind whatever their destinations
    held, hence the same text; so does each single module definition
    written from two netlisters that agree on registry, module map and
    indent. *)
Lemma emission_pass_sink_independent {base : NetlisterBase} :
  (forall (modules : list PModule) (sink1 sink2 : list Line),
      exists (outcome : Exc + unit) (out : list Line) (final : Netlister),
        emission_pass modules (new_netlister sink1) = (outcome, after_sink sink1 final) /\
        emission_pass modules (new_netlister sink2) = (outcome, after_sink sink2 final) /\
        dest final = out /\
        forall tab,
          render tab (dest (snd (emission_pass modules (new_netlister sink1))))
          = render tab sink1 ++ render tab out /\
          render tab (dest (snd (emission_pass modules (new_netlister sink2))))
          = render tab sink2 ++ render tab out) /\
  (forall (module : PModule) (self : Netlister) (sink1 sink2 : list Line),
      exists (outcome : Exc + unit) (final : Netlister),
        write_module_definition module (after_sink sink1 self)
        = (outcome, after_sink sink1 final) /\
        write_module_definition module (after_sink sink2 self)
        = (outcome, after_sink sink2 final)).
Proof.
  split.
  - intros modules sink1 sink2.
    exists (fst (emission_pass modules (new_netlister []))),
           (dest (snd (emission_pass modules (new_netlister [])))),
           (snd (emission_pass modules (new_netlister []))).
    rewrite (new_netlister_after_sink sink1), (new_netlister_after_sink sink2).
    rewrite !si_emission_pass. repeat split; simpl; apply render_app.
  - intros module self sink1 sink2.
    exists (fst (write_module_definition module self)),
           (snd (write_module_definition module self)).
    now rewrite !si_write_module_definition.
Qed.

(** The text of the sample circuit, and a pass that shares the registry of
    an earlier one: it stops at the first module. *)
Example emission_pass_sample :
  render "  " (dest (snd (@emission_pass (demo_base []) [leaf; top] (new_netlister []))))
  = String.concat nl
      ["module leaf"; "#( "; "  parameter w = 8,"; "  parameter d"; ") ";
       "( "; "  input wire a,"; "  output wire [7:0] b"; "); "; "";
       "  // No Signal Declarations"; "  // No Instances"; "";
       "endmodule // leaf "; ""; "";
       "module top"; "// No parameters "; "( "; "  input wire a"; "); "; "";
       "  // Signal Declarations"; "  wire [7:0] b; "; "  ";
       "  // Instance Declarations"; "  leaf"; "  #( "; "    w=4 "; "    d=2 "; "  ) ";
       "  i0"; "  ( "; "    .a(a), "; "    .b(x[7:0]) "; "  ); "; "  "; "";
       "endmodule // top "; ""; ""; ""] /\
  fst (@emission_pass (demo_base []) [leaf; top]
         (snd (@emission_pass (demo_base []) [leaf; top] (new_netlister []))))
  = inl (RuntimeError "Module leaf doubly defined").
Proof. split; vm_compute; reflexivity. Qed.

(** ** The head of a module definition *)

Lemma sink_independent_appends {A : Type} (c : M A) (self : Netlister) :
  sink_independent c ->
  dest (snd (c self)) = (dest self ++ dest (snd (c (emptied self))))%list.
Proof.
  intros H.
  assert (E : self = after_sink (dest self) (emptied self)).
  { destruct self. unfold after_sink, emptied. simpl. now rewrite app_nil_r. }
  rewrite E at 1. now rewrite H.
Qed.

(** The lines a module definition starts with, when the module is not a
    duplicate and its parameter and port declarations can be formatted:
    the header, the default-parameter block and the port block, in this
    order, whatever follows. *)
Lemma write_module_definition_head {base : NetlisterBase} (module : PModule)
    (pdecls decls : list string) (self : Netlister) :
  ~ In (get_module_name module) (module_names self) ->
  NoDup (keys (mod_default_parameters module)) ->
  Forall2 (fun (item : string * PParameter) decl =>
             format_param_decl (fst item) (snd item) = inr decl)
          (mod_default_parameters module) pdecls ->
  mod_ports module <> [] ->
  Forall2 (fun pport decl => format_port_decl pport = inr decl) (mod_ports module) decls ->
  exists rest,
    dest (snd (write_module_definition module self))
    = (dest self
         ++ {| line_indent := indent self; line_text := "module " ++ get_module_name module |}
         :: default_parameter_lines (indent self) (mod_default_parameters module) pdecls
         ++ block (indent self) "( " (separated "" decls) "); "
         ++ rest)%list.
Proof.
  intros Hnot Hnd Hp Hne Hd.
  unfold write_module_definition. cbv zeta. unfold bind at 1. unfold ret at 1.
  destruct (set_mem (get_module_name module) (module_names self)) eqn:E;
    [apply set_mem_In in E; contradiction |].
  unfold bind at 1. unfold module_names_add at 1.
  unfold bind at 1. unfold pmodules_set at 1.
  unfold bind at 1. rewrite writeln_written.
  assert (Hparams : forall s,
             write_default_parameters module s
             = (inr tt, written (default_parameter_lines (indent s)
                                   (mod_default_parameters module) pdecls) s)).
  { intros s. unfold default_parameter_lines.
    destruct (mod_default_parameters module) as [|item params] eqn:Ed.
    - unfold write_default_parameters. rewrite Ed. reflexivity.
    - cbn [truthy]. rewrite <- Ed in *.
      apply write_default_parameters_written; try assumption.
      rewrite Ed. discriminate. }
  unfold bind at 1. rewrite Hparams.
  unfold bind at 1. rewrite (write_ports_written _ _ _ Hne Hd).
  rewrite !written_app.
  match goal with
  | |- context [dest (snd (?c ?s))] =>
      assert (Hsi : sink_independent c);
        [| rewrite (sink_independent_appends c s Hsi);
           exists (dest (snd (c (emptied s)))) ]
  end.
  - unfold write_signals, write_instances.
    repeat first [ apply si_write_instance | si_step ].
  - cbn [dest written snd]. rewrite <- ?app_assoc, <- ?app_comm_cons, <- ?app_assoc.
    reflexivity.
Qed.

(** * Further properties of the writers *)

(** ** Inverting a bind *)

Lemma bind_inr_inv {A B : Type} (c : M A) (k : A -> M B) (self self' : Netlister) (b : B) :
  bind c k self = (inr b, self') ->
  exists a s1, c self = (inr a, s1) /\ k a s1 = (inr b, self').
Proof.
  unfold bind. destruct (c self) as [[e | a] s1]; [discriminate | eauto].
Qed.

(** ** Attributes a body keeps *)

Lemma keeps_bind {X A B : Type} (f : Netlister -> X) (c : M A) (k : A -> M B) :
  keeps f c -> (forall a, keeps f (k a)) -> keeps f (bind c k).
Proof.
  intros Hc Hk self. unfold bind. specialize (Hc self).
  destruct (c self) as [[e | a] self']; simpl in *; [exact Hc |].
  now rewrite Hk.
Qed.

Lemma keeps_for_each {X A : Type} (f : Netlister -> X) (body : A -> M unit) (l : list A) :
  (forall x, keeps f (body x)) -> keeps f (for_each body l).
Proof.
  intros H. induction l as [|x l IH]; simpl.
  - intros self. reflexivity.
  - apply keeps_bind; [apply H | intros _; exact IH].
Qed.

Lemma keeps_for_enumerate {X A : Type} (f : Netlister -> X) (body : Z -> A -> M unit)
    (l : list A) (num : Z) :
  (forall n x, keeps f (body n x)) -> keeps f (for_enumerate body num l).
Proof.
  intros H. revert num. induction l as [|x l IH]; intros num; simpl.
  - intros self. reflexivity.
  - apply keeps_bind; [apply H | intros _; apply IH].
Qed.

Ltac keeps_step :=
  match goal with
  | |- keeps _ (bind _ _) => apply keeps_bind; [| intros]
  | |- keeps _ (for_each _ _) => apply keeps_for_each; intros
  | |- keeps _ (for_enumerate _ _ _) => apply keeps_for_enumerate; intros
  | |- keeps _ (if ?b then _ else _) => destruct b
  | |- keeps _ (match ?x with _ => _ end) => destruct x
  | |- keeps _ (let (_, _) := ?x in _) => destruct x
  | |- keeps _ _ => solve [intros ?; reflexivity]
  end.

(** ** Bodies that only add lines *)

Lemma sink_independent_is_appends {A : Type} (c : M A) : sink_independent c -> appends c.
Proof.
  intros H self. exists (dest (snd (c (emptied self)))).
  now apply sink_independent_appends.
Qed.

(** ** Indent moved by a body that returns *)

Lemma shifts_eq {A : Type} (n m : Z) (c : M A) : shifts n c -> n = m -> shifts m c.
Proof. now intros H <-. Qed.

Lemma shifts_bind {A B : Type} (n m : Z) (c : M A) (k : A -> M B) :
  shifts n c -> (forall a, shifts m (k a)) -> shifts (n + m) (bind c k).
Proof.
  intros Hc Hk self b self' H.
  apply bind_inr_inv in H as (a & s1 & H1 & H2).
  rewrite (Hk _ _ _ _ H2), (Hc _ _ _ H1). lia.
Qed.

Lemma shifts_writeln (t : string) : shifts 0 (writeln t).
Proof. intros self a self' H. inversion H; subst. simpl. lia. Qed.

Lemma shifts_indent_add (n : Z) : shifts n (indent_add n).
Proof. intros self a self' H. inversion H; subst. reflexivity. Qed.

Lemma shifts_ret {A : Type} (a : A) : shifts 0 (ret a).
Proof. intros self a' self' H. inversion H; subst. lia. Qed.

Lemma shifts_raise {A : Type} (n : Z) (e : Exc) : shifts n (@raise A e).
Proof. intros self a self' H. discriminate H. Qed.

Lemma shifts_lift {A : Type} (r : Exc + A) : shifts 0 (lift r).
Proof. intros self a self' H. inversion H; subst. lia. Qed.

Lemma shifts_for_each {A : Type} (body : A -> M unit) (l : list A) :
  (forall x, shifts 0 (body x)) -> shifts 0 (for_each body l).
Proof.
  intros H. induction l as [|x l IH]; simpl.
  - apply shifts_ret.
  - apply (shifts_bind 0 0); [apply H | intros _; exact IH].
Qed.

Lemma shifts_for_enumerate {A : Type} (body : Z -> A -> M unit) (l : list A) (num : Z) :
  (forall n x, shifts 0 (body n x)) -> shifts 0 (for_enumerate body num l).
Proof.
  intros H. revert num. induction l as [|x l IH]; intros num; simpl.
  - apply shifts_ret.
  - apply (shifts_bind 0 0); [apply H | intros _; apply IH].
Qed.

(** A block returns at the indent it started with. *)
Lemma shifts_block (loop : M unit) (opener closer : string) :
  shifts 0 loop ->
  shifts 0 (writeln opener ;; indent_add 1 ;; loop ;; indent_add (-1) ;; writeln closer).
Proof.
  intros H.
  apply (shifts_bind 0 0); [apply shifts_writeln | intros _].
  apply (shifts_bind 1 (-1)); [apply shifts_indent_add | intros _].
  apply (shifts_bind 0 (-1)); [exact H | intros _].
  apply (shifts_bind (-1) 0); [apply shifts_indent_add | intros _].
  apply shifts_writeln.
Qed.

Section WriterShapes.
Context {base : NetlisterBase}.

Lemma shifts_write_parameter_values (pinst : PInstance) :
  shifts 0 (write_parameter_values pinst).
Proof.
  unfold write_parameter_values. destruct (truthy (inst_parameters pinst)).
  - apply shifts_block. apply shifts_for_each. intros [pname pparam].
    apply (shifts_bind 0 0); [apply shifts_lift | intros; apply shifts_writeln].
  - apply shifts_writeln.
Qed.

Lemma shifts_write_connections (pinst : PInstance) (module : ModuleLike) :
  shifts 0 (write_connections pinst module).
Proof.
  unfold write_connections. destruct (truthy (ports module)).
  - apply shifts_block. apply shifts_for_enumerate. intros n x.
    destruct (dict_get String.eqb (inst_connections pinst) x);
      [apply shifts_writeln | apply shifts_raise].
  - apply shifts_writeln.
Qed.

Lemma shifts_write_instance (pinst : PInstance) : shifts 0 (write_instance pinst).
Proof.
  unfold write_instance.
  apply (shifts_bind 0 0).
  - intros self a self' H. inversion H; subst. lia.
  - intros target. cbv zeta.
    apply (shifts_bind 0 0); [apply shifts_writeln | intros _].
    apply (shifts_bind 0 0); [apply shifts_write_parameter_values | intros _].
    apply (shifts_bind 0 0); [apply shifts_writeln | intros _].
    apply (shifts_bind 0 0); [apply shifts_write_connections | intros _].
    apply shifts_writeln.
Qed.

Lemma shifts_write_default_parameters (module : PModule) :
  shifts 0 (write_default_parameters module).
Proof.
  unfold write_default_parameters. destruct (truthy (mod_default_parameters module)).
  - apply shifts_block. apply shifts_for_enumerate. intros n x.
    apply (shifts_bind 0 0); [apply shifts_lift | intros pparam].
    apply (shifts_bind 0 0); [apply shifts_lift | intros; apply shifts_writeln].
  - apply shifts_writeln.
Qed.

Lemma shifts_write_ports (module : PModule) : shifts 0 (write_ports module).
Proof.
  unfold write_ports. destruct (truthy (mod_ports module)).
  - apply shifts_block. apply shifts_for_enumerate. intros n x.
    apply (shifts_bind 0 0); [apply shifts_lift | intros; apply shifts_writeln].
  - apply shifts_writeln.
Qed.

Lemma shifts_write_signals (module : PModule) : shifts 0 (write_signals module).
Proof.
  unfold write_signals. destruct (truthy (mod_signals module)).
  - apply (shifts_bind 0 0); [apply shifts_writeln | intros _].
    apply shifts_for_each. intros x. apply shifts_writeln.
  - apply shifts_writeln.
Qed.

Lemma shifts_write_instances (module : PModule) : shifts 0 (write_instances module).
Proof.
  unfold write_instances. destruct (truthy (mod_instances module)).
  - apply (shifts_bind 0 0); [apply shifts_writeln | intros _].
    apply (shifts_bind 0 0); [apply shifts_writeln | intros _].
    apply shifts_for_each. apply shifts_write_instance.
  - apply shifts_writeln.
Qed.

Lemma shifts_write_module_definition (module : PModule) :
  shifts 0 (write_module_definition module).
Proof.
  unfold write_module_definition. cbv zeta.
  apply (shifts_bind 0 0).
  - intros self a self' H. inversion H; subst. lia.
  - intros [|]; [apply shifts_raise |].
    apply (shifts_bind 0 0); [intros self a self' H; inversion H; subst; simpl; lia | intros _].
    apply (shifts_bind 0 0); [intros self a self' H; inversion H; subst; simpl; lia | intros _].
    apply (shifts_bind 0 0); [apply shifts_writeln | intros _].
    apply (shifts_bind 0 0); [apply shifts_write_default_parameters | intros _].
    apply (shifts_bind 0 0); [apply shifts_write_ports | intros _].
    apply (shifts_bind 0 0); [apply shifts_writeln | intros _].
    apply (shifts_bind 1 (-1)); [apply shifts_indent_add | intros _].
    apply (shifts_bind 0 (-1)); [apply shifts_write_signals | intros _].
    apply (shifts_bind 0 (-1)); [apply shifts_write_instances | intros _].
    apply (shifts_bind (-1) 0); [apply shifts_indent_add | intros _].
    apply (shifts_bind 0 0); apply shifts_writeln || (intros _; apply shifts_writeln).
Qed.
End WriterShapes.

(** ** Invariants of the writers *)

(** X1: a module definition that is written to its end, and an instance
    that is written to its end, leave the indent where it was. *)
Theorem X1_writers_restore_indent {base : NetlisterBase} :
  (forall (module : PModule) (self self' : Netlister),
      write_module_definition module self = (inr tt, self') -> indent self' = indent self) /\
  (forall (pinst : PInstance) (self self' : Netlister),
      write_instance pinst self = (inr tt, self') -> indent self' = indent self).
Proof.
  split.
  - intros module self self' H.
    rewrite (shifts_write_module_definition module _ _ _ H). lia.
  - intros pinst self self' H.
    rewrite (shifts_write_instance pinst _ _ _ H). lia.
Qed.

(** X2: whether they return or raise, [write_module_definition] and
    [write_instance] only add lines behind those the destination holds:
    no line written before is changed or removed. *)
Theorem X2_writers_only_append {base : NetlisterBase} :
  (forall (module : PModule) (self : Netlister),
      exists out, dest (snd (write_module_definition module self)) = (dest self ++ out)%list) /\
  (forall (pinst : PInstance) (self : Netlister),
      exists out, dest (snd (write_instance pinst self)) = (dest self ++ out)%list).
Proof.
  split.
  - intros module. apply sink_independent_is_appends, si_write_module_definition.
  - intros pinst. apply sink_independent_is_appends, si_write_instance.
Qed.

Section RegistryFacts.
Context {base : NetlisterBase}.

Lemma keeps_write_instance {X : Type} (f : Netlister -> X) (pinst : PInstance) :
  (forall s1 s2, module_names s1 = module_names s2 -> pmodules s1 = pmodules s2 ->
                 f s1 = f s2) ->
  keeps f (write_instance pinst).
Proof.
  intros Hf.
  assert (Hw : forall t, keeps f (writeln t)) by (intros t self; now apply Hf).
  assert (Hi : forall n, keeps f (indent_add n)) by (intros n self; now apply Hf).
  unfold write_instance. apply keeps_bind.
  - intros self. reflexivity.
  - intros target. cbv zeta. unfold write_parameter_values, write_connections.
    repeat first [ apply Hw | apply Hi | keeps_step ].
Qed.

Lemma dict_get_set_same_string {V : Type} (d : list (string * V)) (k : string) (v : V) :
  dict_get String.eqb (dict_set String.eqb d k v) k = Some v.
Proof.
  induction d as [|[k' v'] d IH]; simpl.
  - now rewrite String.eqb_refl.
  - destruct (String.eqb_spec k' k) as [-> | Hne]; simpl.
    + now rewrite String.eqb_refl.
    + destruct (String.eqb_spec k' k); [contradiction | exact IH].
Qed.

Lemma dict_get_set_other_string {V : Type} (d : list (string * V)) (k k' : string) (v : V) :
  k <> k' ->
  dict_get String.eqb (dict_set String.eqb d k v) k' = dict_get String.eqb d k'.
Proof.
  intros Hne. induction d as [|[k0 v0] d IH]; simpl.
  - destruct (String.eqb_spec k k'); [contradiction | reflexivity].
  - destruct (String.eqb_spec k0 k) as [-> | Hk0]; simpl.
    + destruct (String.eqb_spec k k'); [contradiction | reflexivity].
    + now rewrite IH.
Qed.

(** What is left of a module definition once the module is registered. *)
Lemma write_module_definition_fresh (module : PModule) (self : Netlister) :
  ~ In (get_module_name module) (module_names self) ->
  write_module_definition module self
  = (writeln ("module " ++ get_module_name module) ;;
     write_default_parameters module ;;
     write_ports module ;;
     writeln "" ;;
     indent_add 1 ;;
     write_signals module ;;
     write_instances module ;;
     indent_add (-1) ;;
     writeln "" ;;
     writeln ("endmodule // " ++ get_module_name module ++ " " ++ nl ++ nl))
      (registered module self).
Proof.
  intros Hnot. unfold write_module_definition. cbv zeta.
  unfold bind at 1. unfold ret at 1.
  destruct (set_mem (get_module_name module) (module_names self)) eqn:E;
    [apply set_mem_In in E; contradiction |].
  reflexivity.
Qed.

Lemma keeps_module_body {X : Type} (f : Netlister -> X) (module : PModule) :
  (forall s1 s2, module_names s1 = module_names s2 -> pmodules s1 = pmodules s2 ->
                 f s1 = f s2) ->
  keeps f (writeln ("module " ++ get_module_name module) ;;
           write_default_parameters module ;;
           write_ports module ;;
           writeln "" ;;
           indent_add 1 ;;
           write_signals module ;;
           write_instances module ;;
           indent_add (-1) ;;
           writeln "" ;;
           writeln ("endmodule // " ++ get_module_name module ++ " " ++ nl ++ nl)).
Proof.
  intros Hf.
  assert (Hw : forall t, keeps f (writeln t)) by (intros t self; now apply Hf).
  assert (Hi : forall n, keeps f (indent_add n)) by (intros n self; now apply Hf).
  unfold write_default_parameters, write_ports, write_signals, write_instances.
  repeat first [ apply Hw | apply Hi | apply (keeps_write_instance f _ Hf) | keeps_step ].
Qed.
End RegistryFacts.

(** X3: [write_instance] registers nothing: whether it returns or raises,
    the name registry and the module map are as before. *)
Theorem X3_write_instance_keeps_registry {base : NetlisterBase}
    (pinst : PInstance) (self : Netlister) :
  module_names (snd (write_instance pinst self)) = module_names self /\
  pmodules (snd (write_instance pinst self)) = pmodules self.
Proof.
  split.
  - apply (keeps_write_instance module_names). now intros s1 s2 H _.
  - apply (keeps_write_instance pmodules). now intros s1 s2 _ H.
Qed.

(** ** Names stay registered *)

Section NamesGrow.
Context {base : NetlisterBase}.

Lemma write_module_definition_names_grow (module : PModule) (self : Netlister)
    (name : string) :
  In name (module_names self) ->
  In name (module_names (snd (write_module_definition module self))).
Proof.
  intros H.
  destruct (in_dec string_dec (get_module_name module) (module_names self)) as [Hin | Hnot].
  - now rewrite (duplicate_raises _ _ Hin).
  - rewrite (write_module_definition_registers _ _ Hnot).
    apply in_or_app. now left.
Qed.

Lemma emission_pass_names_grow (modules : list PModule) (self : Netlister) (name : string) :
  In name (module_names self) ->
  In name (module_names (snd (emission_pass modules self))).
Proof.
  unfold emission_pass. revert self.
  induction modules as [|m l IH]; intros self H; [exact H |].
  simpl. unfold bind.
  pose proof (write_module_definition_names_grow m self name H) as H1.
  destruct (write_module_definition m self) as [[e | []] s1]; simpl in *;
    [exact H1 | now apply IH].
Qed.
End NamesGrow.

(** X5: once a module is defined, a later definition under the same name
    raises the duplicate error and writes nothing, whatever modules were
    defined in between, and whether those definitions, or the first one
    itself, were written to their end or raised. *)
Theorem X5_redefinition_raises {base : NetlisterBase}
    (module module' : PModule) (between : list PModule) (self : Netlister) :
  ~ In (get_module_name module) (module_names self) ->
  get_module_name module' = get_module_name module ->
  write_module_definition module'
    (snd (emission_pass between (snd (write_module_definition module self))))
  = (inl (RuntimeError ("Module " ++ get_module_name module' ++ " doubly defined")),
     snd (emission_pass between (snd (write_module_definition module self)))).
Proof.
  intros Hnot Hname. apply duplicate_raises. rewrite Hname.
  apply emission_pass_names_grow.
  rewrite (write_module_definition_registers _ _ Hnot).
  apply in_or_app. right. now left.
Qed.

Lemma X5_redefinition_raises_witness :
  @write_module_definition (demo_base []) leaf
    (snd (@emission_pass (demo_base []) [top]
            (snd (@write_module_definition (demo_base []) leaf (new_netlister [])))))
  = (inl (RuntimeError ("Module " ++ @get_module_name (demo_base []) leaf
                                  ++ " doubly defined")),
     snd (@emission_pass (demo_base []) [top]
            (snd (@write_module_definition (demo_base []) leaf (new_netlister []))))).
Proof.
  apply (@X5_redefinition_raises (demo_base []) leaf leaf [top] (new_netlister [])).
  - intros [].
  - reflexivity.
Defined.

(** ** The first and the last line of a module definition *)

Lemma ends_with_line_writeln (t : string) : ends_with_line t (writeln t).
Proof.
  intros self a self' H. inversion H; subst. exists []. reflexivity.
Qed.

Lemma ends_with_line_bind {A B : Type} (t : string) (c : M A) (k : A -> M B) :
  appends c -> (forall a, ends_with_line t (k a)) -> ends_with_line t (bind c k).
Proof.
  intros Hc Hk self b self' H.
  apply bind_inr_inv in H as (a & s1 & H1 & H2).
  destruct (Hc self) as (out & Hout). rewrite H1 in Hout. simpl in Hout.
  destruct (Hk a _ _ _ H2) as (mid & Hmid).
  exists (out ++ mid)%list. rewrite Hmid, Hout. now rewrite <- !app_assoc.
Qed.

Section Brackets.
Context {base : NetlisterBase}.

Lemma appends_write_default_parameters (module : PModule) :
  appends (write_default_parameters module).
Proof.
  apply sink_independent_is_appends. unfold write_default_parameters. repeat si_step.
Qed.

Lemma appends_write_ports (module : PModule) : appends (write_ports module).
Proof. apply sink_independent_is_appends. unfold write_ports. repeat si_step. Qed.

Lemma appends_write_signals (module : PModule) : appends (write_signals module).
Proof. apply sink_independent_is_appends. unfold write_signals. repeat si_step. Qed.

Lemma appends_write_instances (module : PModule) : appends (write_instances module).
Proof.
  apply sink_independent_is_appends. unfold write_instances.
  repeat first [ apply si_write_instance | si_step ].
Qed.

Lemma appends_writeln (t : string) : appends (writeln t).
Proof. apply sink_independent_is_appends, si_writeln. Qed.

Lemma appends_indent_add (n : Z) : appends (indent_add n).
Proof. apply sink_independent_is_appends, si_indent_add. Qed.
End Brackets.

(** X6: the lines of a module definition that is written to its end start
    with the header line [module <name>] and end with the line
    [endmodule // <name>] followed by two line feeds, both at the indent
    the netlister had. *)
Theorem X6_module_definition_bracketed {base : NetlisterBase}
    (module : PModule) (self self' : Netlister) :
  write_module_definition module self = (inr tt, self') ->
  exists mid,
    dest self'
    = (dest self
         ++ {| line_indent := indent self;
               line_text := "module " ++ get_module_name module |}
         :: mid
         ++ [ {| line_indent := indent self;
                 line_text := "endmodule // " ++ get_module_name module ++ " " ++ nl ++ nl |} ])%list.
Proof.
  intros H. pose proof (shifts_write_module_definition module _ _ _ H) as Hind.
  rewrite Z.add_0_r in Hind.
  destruct (in_dec string_dec (get_module_name module) (module_names self)) as [Hin | Hnot];
    [rewrite (duplicate_raises _ _ Hin) in H; discriminate |].
  rewrite (write_module_definition_fresh _ _ Hnot) in H.
  apply bind_inr_inv in H as ([] & s1 & H1 & H2).
  rewrite writeln_written in H1. inversion H1; subst s1. clear H1.
  assert (He : ends_with_line
                 ("endmodule // " ++ get_module_name module ++ " " ++ nl ++ nl)
                 (write_default_parameters module ;;
                  write_ports module ;;
                  writeln "" ;;
                  indent_add 1 ;;
                  write_signals module ;;
                  write_instances module ;;
                  indent_add (-1) ;;
                  writeln "" ;;
                  writeln ("endmodule // " ++ get_module_name module ++ " " ++ nl ++ nl))).
  { repeat (apply ends_with_line_bind;
            [ first [ apply appends_write_default_parameters | apply appends_write_ports
                    | apply appends_write_signals | apply appends_write_instances
                    | apply appends_writeln | apply appends_indent_add ]
            | intros _ ]).
    apply ends_with_line_writeln. }
  destruct (He _ _ _ H2) as (mid & Hmid).
  exists mid. rewrite Hmid, Hind. cbn [dest written registered indent].
  now rewrite <- app_assoc.
Qed.

Lemma X6_module_definition_bracketed_witness :
  exists mid,
    dest (snd (@write_module_definition (demo_base []) top after_leaf))
    = (dest after_leaf
         ++ {| line_indent := indent after_leaf;
               line_text := "module " ++ @get_module_name (demo_base []) top |}
         :: mid
         ++ [ {| line_indent := indent after_leaf;
                 line_text := "endmodule // " ++ @get_module_name (demo_base []) top
                                              ++ " " ++ nl ++ nl |} ])%list.
Proof.
  apply (@X6_module_definition_bracketed (demo_base []) top after_leaf
           (snd (@write_module_definition (demo_base []) top after_leaf))).
  vm_compute. reflexivity.
Defined.

(** ** Instances: every way to return or raise *)

(** A loop stopped by an element that raises: the elements before it have
    written their lines. *)
Lemma for_each_raises {A : Type} (body : A -> M unit) (R : A -> string -> Prop)
    (e : Exc) (x : A) (post : list A) :
  (forall y t self, R y t ->
     body y self = (inr tt, written [ {| line_indent := indent self; line_text := t |} ] self)) ->
  (forall self, body x self = (inl e, self)) ->
  forall pre ts, Forall2 R pre ts ->
  forall self,
    for_each body (pre ++ x :: post) self
    = (inl e, written (lines_at (indent self) ts) self).
Proof.
  intros Hbody Hx pre ts HF. induction HF as [|y t pre ts HR HF IH]; intros self.
  - simpl. rewrite (bind_raise _ _ _ _ _ (Hx self)). now rewrite written_nil.
  - simpl for_each. rewrite (bind_ok _ _ _ _ _ (Hbody y t self HR)).
    rewrite IH, written_app. reflexivity.
Qed.

(** The parameters of an instance: all values can be formatted, or there
    is a first one that cannot. *)
Lemma values_all_or_first_fails {base : NetlisterBase} (params : list (string * PParameter)) :
  (exists pvals,
      Forall2 (fun (item : string * PParameter) pval => get_param_value (snd item) = inr pval)
              params pvals) \/
  (exists pre item post pvals e,
      params = (pre ++ item :: post)%list /\
      Forall2 (fun (item : string * PParameter) pval => get_param_value (snd item) = inr pval)
              pre pvals /\
      get_param_value (snd item) = inl e).
Proof.
  induction params as [|item l IH].
  - left. exists []. constructor.
  - destruct (get_param_value (snd item)) as [e | v] eqn:E.
    + right. exists [], item, l, [], e. repeat split; [constructor | exact E].
    + destruct IH as [(pvals & HF) | (pre & it & post & pvals & e & -> & HF & He)].
      * left. exists (v :: pvals). now constructor.
      * right. exists (item :: pre), it, post, (v :: pvals), e.
        repeat split; [now constructor | exact He].
Qed.

(** The ports of a target: all connected, or one is not. *)
Lemma connected_or_open (conns : list (string * Connection)) (port_order : list string) :
  (forall q, In q port_order -> dict_get String.eqb conns q <> None) \/
  (exists q, In q port_order /\ dict_get String.eqb conns q = None).
Proof.
  induction port_order as [|p l IH].
  - left. intros q [].
  - destruct (dict_get String.eqb conns p) eqn:E.
    + destruct IH as [H | (q & Hin & Hq)].
      * left. intros q [<- | Hin]; [congruence | now apply H].
      * right. exists q. split; [now right | exact Hq].
    + right. exists p. split; [now left | exact E].
Qed.

Section InstanceOutcomes.
Context {base : NetlisterBase}.

Lemma overrides_related (params : list (string * PParameter)) (pvals : list string) :
  Forall2 (fun (item : string * PParameter) pval => get_param_value (snd item) = inr pval)
          params pvals ->
  Forall2 (fun (item : string * PParameter) t =>
             exists pval, get_param_value (snd item) = inr pval /\
                          t = fst item ++ "=" ++ pval ++ " ")
          params (overrides params pvals).
Proof.
  intros HF. unfold overrides.
  induction HF as [|item pval l pv H HF IH]; simpl; constructor.
  - exists pval. now split.
  - exact IH.
Qed.

Lemma write_parameter_values_raises (pinst : PInstance)
    (pre post : list (string * PParameter)) (item : string * PParameter)
    (pvals : list string) (e : Exc) (self : Netlister) :
  inst_parameters pinst = (pre ++ item :: post)%list ->
  Forall2 (fun (item : string * PParameter) pval => get_param_value (snd item) = inr pval)
          pre pvals ->
  get_param_value (snd item) = inl e ->
  write_parameter_values pinst self
  = (inl e,
     indented 1
       (written ({| line_indent := indent self; line_text := "#( " |}
                   :: lines_at (indent self + 1) (overrides pre pvals)) self)).
Proof.
  intros Hsplit HF He. unfold write_parameter_values. rewrite Hsplit.
  rewrite (truthy_cons (pre ++ item :: post)) by (destruct pre; discriminate).
  apply block_raises. intros s.
  apply (for_each_raises _
           (fun (item : string * PParameter) t =>
              exists pval, get_param_value (snd item) = inr pval /\
                           t = fst item ++ "=" ++ pval ++ " ")).
  - intros [pname pparam] t s' (pval & Hv & ->). simpl in Hv.
    unfold bind, lift. rewrite Hv. apply writeln_written.
  - intros s'. destruct item as [pname pparam]. simpl in He.
    unfold bind, lift. now rewrite He.
  - now apply overrides_related.
Qed.

Lemma write_connections_lines (pinst : PInstance) (module : ModuleLike)
    (cs : list Connection) (self : Netlister) :
  Forall2 (fun pname pconn => dict_get String.eqb (inst_connections pinst) pname = Some pconn)
          (port_names module) cs ->
  write_connections pinst module self
  = (inr tt, written (connection_lines (indent self) module cs) self).
Proof.
  intros HF. unfold connection_lines.
  destruct (ports module) as [|p l] eqn:E.
  - unfold write_connections. rewrite E. reflexivity.
  - cbn [truthy]. apply write_connections_written; [rewrite E; discriminate | exact HF].
Qed.

(** The lines of an instance that is written to its end. *)
Lemma write_instance_lines (pinst : PInstance) (self : Netlister)
    (target : ResolvedModule) (pvals : list string) (cs : list Connection) :
  resolve_reference (pmodules self) (inst_module pinst) = inr target ->
  Forall2 (fun (item : string * PParameter) pval => get_param_value (snd item) = inr pval)
          (inst_parameters pinst) pvals ->
  Forall2 (fun pname pconn => dict_get String.eqb (inst_connections pinst) pname = Some pconn)
          (port_names (rm_module target)) cs ->
  write_instance pinst self
  = (inr tt,
     written
       ({| line_indent := indent self; line_text := rm_module_name target |}
          :: parameter_value_lines (indent self) (inst_parameters pinst) pvals
          ++ {| line_indent := indent self; line_text := inst_name pinst |}
          :: connection_lines (indent self) (rm_module target) cs
          ++ [ {| line_indent := indent self; line_text := "" |} ])
       self).
Proof.
  intros Hres Hpv Hcs. unfold write_instance.
  unfold bind at 1. unfold lift at 1. rewrite Hres. cbv zeta.
  unfold bind at 1. rewrite writeln_written.
  unfold bind at 1. rewrite (write_parameter_values_lines _ _ _ Hpv).
  unfold bind at 1. rewrite writeln_written.
  unfold bind at 1. rewrite (write_connections_lines _ _ _ _ Hcs).
  rewrite writeln_written, !written_app. simpl indent.
  rewrite <- ?app_assoc. reflexivity.
Qed.

Lemma write_instance_value_raises (pinst : PInstance) (self : Netlister)
    (target : ResolvedModule) (pre post : list (string * PParameter))
    (item : string * PParameter) (pvals : list string) (e : Exc) :
  resolve_reference (pmodules self) (inst_module pinst) = inr target ->
  inst_parameters pinst = (pre ++ item :: post)%list ->
  Forall2 (fun (item : string * PParameter) pval => get_param_value (snd item) = inr pval)
          pre pvals ->
  get_param_value (snd item) = inl e ->
  write_instance pinst self
  = (inl e,
     indented 1
       (written
          ({| line_indent := indent self; line_text := rm_module_name target |}
             :: {| line_indent := indent self; line_text := "#( " |}
             :: lines_at (indent self + 1) (overrides pre pvals))
          self)).
Proof.
  intros Hres Hsplit HF He. unfold write_instance.
  unfold bind at 1. unfold lift at 1. rewrite Hres. cbv zeta.
  unfold bind at 1. rewrite writeln_written.
  unfold bind at 1.
  rewrite (write_parameter_values_raises _ _ _ _ _ _ _ Hsplit HF He).
  rewrite !written_app. reflexivity.
Qed.
End InstanceOutcomes.

(** X7: [write_instance] returns only if the reference resolves, every
    parameter value can be formatted and every port of the target has an
    entry in the connection mapping: when one of these fails, it raises. *)
Theorem X7_write_instance_returns_only_if {base : NetlisterBase}
    (pinst : PInstance) (self : Netlister) :
  fst (write_instance pinst self) = inr tt ->
  exists target,
    resolve_reference (pmodules self) (inst_module pinst) = inr target /\
    (forall item, In item (inst_parameters pinst) ->
       exists pval, get_param_value (snd item) = inr pval) /\
    (forall pname, In pname (port_names (rm_module target)) ->
       dict_get String.eqb (inst_connections pinst) pname <> None).
Proof.
  intros H.
  destruct (resolve_reference (pmodules self) (inst_module pinst)) as [e | target] eqn:Hres.
  { unfold write_instance, bind, lift in H. rewrite Hres in H. discriminate. }
  exists target. split; [reflexivity |].
  destruct (values_all_or_first_fails (inst_parameters pinst))
    as [(pvals & Hpv) | (pre & item & post & pvals & e & Hsplit & HF & He)].
  - split.
    + intros item Hin. apply In_nth_error in Hin as (i & Hi).
      destruct (Forall2_nth_error _ _ _ _ _ Hpv Hi) as (pval & _ & Hv). eauto.
    + destruct (connected_or_open (inst_connections pinst)
                                  (port_names (rm_module target))) as [Hc | Hopen];
        [exact Hc |].
      destruct (first_unconnected _ _ Hopen) as (p & q & r & cs & Hs & Hcs & Hnone).
      rewrite (write_instance_raises _ _ _ _ _ _ _ _ Hres Hpv Hs Hcs Hnone) in H.
      discriminate.
  - rewrite (write_instance_value_raises _ _ _ _ _ _ _ _ Hres Hsplit HF He) in H.
    discriminate.
Qed.

Lemma X7_write_instance_returns_only_if_witness :
  exists target,
    @resolve_reference (demo_base []) (pmodules after_leaf) (inst_module inst_ok)
    = inr target /\
    (forall item, In item (inst_parameters inst_ok) ->
       exists pval, @get_param_value (demo_base []) (snd item) = inr pval) /\
    (forall pname, In pname (port_names (rm_module target)) ->
       dict_get String.eqb (inst_connections inst_ok) pname <> None).
Proof.
  apply (@X7_write_instance_returns_only_if (demo_base []) inst_ok after_leaf).
  reflexivity.
Defined.

(** X8: when the value of a parameter of an instance cannot be formatted,
    [write_instance] raises the exception of [get_param_value] for the
    first such parameter; the destination then holds the name of the
    target, the opener of the parameter block and the entries of the
    parameters before it, and nothing of the instance's name or
    connections; the indent stays one level in. *)
Theorem X8_write_instance_value_raises {base : NetlisterBase}
    (pinst : PInstance) (self : Netlister) (target : ResolvedModule)
    (pre post : list (string * PParameter)) (item : string * PParameter)
    (pvals : list string) (e : Exc) :
  resolve_reference (pmodules self) (inst_module pinst) = inr target ->
  inst_parameters pinst = (pre ++ item :: post)%list ->
  Forall2 (fun (item : string * PParameter) pval => get_param_value (snd item) = inr pval)
          pre pvals ->
  get_param_value (snd item) = inl e ->
  write_instance pinst self
  = (inl e,
     {| module_names := module_names self;
        pmodules := pmodules self;
        indent := indent self + 1;
        dest :=
          (dest self
             ++ {| line_indent := indent self; line_text := rm_module_name target |}
             :: {| line_indent := indent self; line_text := "#( " |}
             :: lines_at (indent self + 1) (overrides pre pvals))%list |}).
Proof.
  intros Hres Hsplit HF He.
  now rewrite (write_instance_value_raises _ _ _ _ _ _ _ _ Hres Hsplit HF He).
Qed.

(** X9: when the reference of an instance does not resolve,
    [write_instance] raises the exception of [resolve_reference] and the
    netlister is left as it was: not a line is written. *)
Theorem X9_write_instance_unresolved {base : NetlisterBase}
    (pinst : PInstance) (self : Netlister) (e : Exc) :
  resolve_reference (pmodules self) (inst_module pinst) = inl e ->
  write_instance pinst self = (inl e, self).
Proof.
  intros H. unfold write_instance, bind, lift. now rewrite H.
Qed.

(** X10: an instance of a target without ports, whose reference resolves
    and whose parameter values can be formatted, is written to its end
    whatever its connection mapping holds: in place of a connection block
    stands the one line [// No ports ]. *)
Theorem X10_write_instance_no_ports {base : NetlisterBase}
    (pinst : PInstance) (self : Netlister) (target : ResolvedModule)
    (pvals : list string) :
  resolve_reference (pmodules self) (inst_module pinst) = inr target ->
  Forall2 (fun (item : string * PParameter) pval => get_param_value (snd item) = inr pval)
          (inst_parameters pinst) pvals ->
  ports (rm_module target) = [] ->
  write_instance pinst self
  = (inr tt,
     written
       ({| line_indent := indent self; line_text := rm_module_name target |}
          :: parameter_value_lines (indent self) (inst_parameters pinst) pvals
          ++ [ {| line_indent := indent self; line_text := inst_name pinst |};
               {| line_indent := indent self; line_text := "// No ports " |};
               {| line_indent := indent self; line_text := "" |} ])
       self).
Proof.
  intros Hres Hpv Hports.
  rewrite (write_instance_lines _ _ _ pvals [] Hres Hpv).
  - unfold connection_lines. rewrite Hports. reflexivity.
  - unfold port_names. rewrite Hports. constructor.
Qed.

Lemma X8_write_instance_value_raises_witness :
  @write_instance (demo_base []) inst_badval after_leaf
  = (inl ValueError,
     {| module_names := ["leaf"];
        pmodules := [("leaf", leaf)];
        indent := 2;
        dest := lines_at 1 ["leaf"; "#( "] ++ lines_at 2 ["w=4 "] |}).
Proof.
  apply (@X8_write_instance_value_raises (demo_base []) inst_badval after_leaf
           {| rm_module := LocalModule leaf; rm_module_name := "leaf" |}
           [("w", param_int 4)] [("d", param_int 2)] ("m", param_bool) ["4"] ValueError).
  - reflexivity.
  - reflexivity.
  - repeat constructor.
  - reflexivity.
Defined.

Lemma X9_write_instance_unresolved_witness :
  @write_instance (demo_base []) inst_unresolved after_leaf
  = (inl (RuntimeError "Invalid Module reference nowhere"), after_leaf).
Proof.
  apply (@X9_write_instance_unresolved (demo_base []) inst_unresolved after_leaf).
  reflexivity.
Defined.

Lemma X10_write_instance_no_ports_witness :
  @write_instance (demo_base []) inst_bare after_bare
  = (inr tt,
     written (lines_at 1 ["bare"; "// No parameters "; "i4"; "// No ports "; ""])
             after_bare).
Proof.
  apply (@X10_write_instance_no_ports (demo_base []) inst_bare after_bare
           {| rm_module := LocalModule bare; rm_module_name := "bare" |} []).
  - reflexivity.
  - constructor.
  - reflexivity.
Defined.

(** ** Module definitions: blocks and outcomes *)

Section ModuleOutcomes.
Context {base : NetlisterBase}.

Lemma write_signals_lines (module : PModule) (self : Netlister) :
  write_signals module self
  = (inr tt, written (signal_lines (indent self) (mod_signals module)) self).
Proof.
  unfold write_signals, signal_lines.
  destruct (mod_signals module) as [|psig l] eqn:E; [reflexivity |].
  cbn [truthy]. rewrite <- E. clear E.
  unfold bind at 1. rewrite writeln_written.
  rewrite (for_each_written _ (fun psig t => t = format_signal_decl psig ++ "; ")
             ltac:(intros x t s ->; apply writeln_written)
             (mod_signals module)
             (map (fun psig => format_signal_decl psig ++ "; ") (mod_signals module))).
  - now rewrite written_app.
  - induction (mod_signals module); simpl; constructor; [reflexivity | assumption].
Qed.

Lemma write_ports_lines (module : PModule) (decls : list string) (self : Netlister) :
  Forall2 (fun pport decl => format_port_decl pport = inr decl) (mod_ports module) decls ->
  write_ports module self
  = (inr tt, written (port_lines (indent self) (mod_ports module) decls) self).
Proof.
  intros HF. unfold port_lines.
  destruct (mod_ports module) as [|p l] eqn:E.
  - unfold write_ports. rewrite E. reflexivity.
  - cbn [truthy]. rewrite <- E in HF.
    apply write_ports_written; [rewrite E; discriminate | exact HF].
Qed.

Lemma write_default_parameters_lines (module : PModule) (decls : list string)
    (self : Netlister) :
  NoDup (keys (mod_default_parameters module)) ->
  Forall2 (fun (item : string * PParameter) decl =>
             format_param_decl (fst item) (snd item) = inr decl)
          (mod_default_parameters module) decls ->
  write_default_parameters module self
  = (inr tt,
     written (default_parameter_lines (indent self) (mod_default_parameters module) decls)
             self).
Proof.
  intros Hnd HF. unfold default_parameter_lines.
  destruct (mod_default_parameters module) as [|item l] eqn:E.
  - unfold write_default_parameters. rewrite E. reflexivity.
  - cbn [truthy]. rewrite <- E in *.
    apply write_default_parameters_written; try assumption. rewrite E. discriminate.
Qed.

Lemma write_ports_raises (module : PModule) (pre post : list Port) (pport : Port)
    (decls : list string) (e : Exc) (self : Netlister) :
  mod_ports module = (pre ++ pport :: post)%list ->
  Forall2 (fun p decl => format_port_decl p = inr decl) pre decls ->
  format_port_decl pport = inl e ->
  write_ports module self
  = (inl e,
     indented 1
       (written ({| line_indent := indent self; line_text := "( " |}
                   :: lines_at (indent self + 1) (map (fun t => t ++ ",") decls)) self)).
Proof.
  intros Hsplit HF He. unfold write_ports. rewrite Hsplit.
  rewrite (truthy_cons (pre ++ pport :: post)) by (destruct pre; discriminate).
  assert (Hmap : map (fun t => t ++ ",") decls = map (fun t => t ++ "," ++ "") decls)
    by reflexivity.
  rewrite Hmap. apply block_raises. intros s.
  apply (for_enumerate_raises _ _ "" (len (pre ++ pport :: post))) with (3 := HF); [| | lia].
  - intros num x t s' Hx. unfold bind, lift. rewrite Hx, writeln_written.
    now rewrite append_nil_r.
  - intros num s'. unfold bind, lift. now rewrite He.
Qed.

(** A key of a mapping is found in it, with a value the mapping holds. *)
Lemma dict_get_key {V : Type} (d : list (string * V)) (k : string) :
  In k (keys d) -> exists v, dict_get String.eqb d k = Some v /\ In (k, v) d.
Proof.
  induction d as [|[k' v'] d IH]; intros Hin; [contradiction |].
  simpl. destruct (String.eqb_spec k' k) as [-> | Hne].
  - exists v'. split; [reflexivity | now left].
  - destruct Hin as [E | Hin]; [simpl in E; contradiction |].
    destruct (IH Hin) as (v & Hv & Hi). exists v. split; [exact Hv | now right].
Qed.

(** The names of the default parameters: all declarations can be
    formatted, or there is a first one that cannot. *)
Lemma decls_all_or_first_fails (d : list (string * PParameter)) (names : list string) :
  (forall name, In name names -> In name (keys d)) ->
  (exists decls,
      Forall2 (fun name decl =>
                 exists pparam, dict_get String.eqb d name = Some pparam /\
                                format_param_decl name pparam = inr decl)
              names decls) \/
  (exists pre name post decls pparam e,
      names = (pre ++ name :: post)%list /\
      Forall2 (fun name decl =>
                 exists pparam, dict_get String.eqb d name = Some pparam /\
                                format_param_decl name pparam = inr decl)
              pre decls /\
      dict_get String.eqb d name = Some pparam /\ In (name, pparam) d /\
      format_param_decl name pparam = inl e).
Proof.
  induction names as [|name l IH]; intros Hkeys.
  - left. exists []. constructor.
  - destruct (dict_get_key d name) as (pparam & Hget & Hin); [apply Hkeys; now left |].
    destruct (format_param_decl name pparam) as [e | decl] eqn:E.
    + right. exists [], name, l, [], pparam, e. repeat split; try assumption. constructor.
    + destruct IH as [(decls & HF) | (pre & n & post & decls & pp & e & -> & HF & H1 & H2 & H3)].
      * intros n Hn. apply Hkeys. now right.
      * left. exists (decl :: decls). constructor; [eauto | exact HF].
      * right. exists (name :: pre), n, post, (decl :: decls), pp, e.
        repeat split; try assumption. constructor; [eauto | exact HF].
Qed.
End ModuleOutcomes.

(** The end of a module definition around two bodies that write lines. *)
Lemma module_tail_written (c1 c2 : M unit) (ls1 ls2 : Z -> list Line) (closer : string) :
  (forall s, c1 s = (inr tt, written (ls1 (indent s)) s)) ->
  (forall s, c2 s = (inr tt, written (ls2 (indent s)) s)) ->
  forall self,
    (writeln "" ;; indent_add 1 ;; c1 ;; c2 ;; indent_add (-1) ;; writeln "" ;;
     writeln closer) self
    = (inr tt,
       written
         ({| line_indent := indent self; line_text := "" |}
            :: ls1 (indent self + 1)%Z
            ++ ls2 (indent self + 1)%Z
            ++ [ {| line_indent := indent self; line_text := "" |};
                 {| line_indent := indent self; line_text := closer |} ])
         self).
Proof.
  intros H1 H2 self. unfold bind at 1. rewrite writeln_written.
  unfold bind at 1. unfold indent_add at 1.
  unfold bind at 1. rewrite H1.
  unfold bind at 1. rewrite H2.
  unfold bind, indent_add, writeln, written. simpl.
  replace (indent self + 1 + -1)%Z with (indent self) by lia.
  rewrite <- !app_assoc. reflexivity.
Qed.


(** X12: the whole text of a module without instances, whose name is not
    registered yet and whose parameter and port declarations can be
    formatted: header, parameter block, port block, a blank line, the
    signal declarations and the line [// No Instances] one level in, a
    blank line and the closing line; the module is registered and the
    indent is as before. *)
Theorem X12_write_module_definition_leaf {base : NetlisterBase}
    (module : PModule) (pdecls decls : list string) (self : Netlister) :
  ~ In (get_module_name module) (module_names self) ->
  NoDup (keys (mod_default_parameters module)) ->
  Forall2 (fun (item : string * PParameter) decl =>
             format_param_decl (fst item) (snd item) = inr decl)
          (mod_default_parameters module) pdecls ->
  Forall2 (fun pport decl => format_port_decl pport = inr decl) (mod_ports module) decls ->
  mod_instances module = [] ->
  write_module_definition module self
  = (inr tt,
     {| module_names := (module_names self ++ [get_module_name module])%list;
        pmodules := dict_set String.eqb (pmodules self) (mod_name module) module;
        indent := indent self;
        dest :=
          (dest self
             ++ {| line_indent := indent self;
                   line_text := "module " ++ get_module_name module |}
             :: default_parameter_lines (indent self) (mod_default_parameters module) pdecls
             ++ port_lines (indent self) (mod_ports module) decls
             ++ {| line_indent := indent self; line_text := "" |}
             :: signal_lines (indent self + 1) (mod_signals module)
             ++ [ {| line_indent := indent self + 1; line_text := "// No Instances" |};
                  {| line_indent := indent self; line_text := "" |};
                  {| line_indent := indent self;
                     line_text := "endmodule // " ++ get_module_name module
                                                  ++ " " ++ nl ++ nl |} ])%list |}).
Proof.
  intros Hnot Hnd Hp Hd Hinst.
  rewrite (write_module_definition_fresh _ _ Hnot).
  unfold bind at 1. rewrite writeln_written.
  unfold bind at 1. rewrite (write_default_parameters_lines _ _ _ Hnd Hp).
  unfold bind at 1. rewrite (write_ports_lines _ _ _ Hd).
  rewrite (module_tail_written (write_signals module) (write_instances module)
             (fun depth => signal_lines depth (mod_signals module))
             (fun depth => [ {| line_indent := depth; line_text := "// No Instances" |} ])).
  - rewrite !written_app. cbn [indent written registered].
    unfold written, registered, set_add. cbn [indent dest module_names pmodules].
    destruct (set_mem (get_module_name module) (module_names self)) eqn:E;
      [apply set_mem_In in E; contradiction |].
    rewrite <- ?app_assoc. cbn [app]. rewrite <- ?app_assoc. reflexivity.
  - intros s. apply write_signals_lines.
  - intros s. unfold write_instances. rewrite Hinst. reflexivity.
Qed.

Lemma X12_write_module_definition_leaf_witness :
  render "  " (dest (snd (@write_module_definition (demo_base []) bare (new_netlister []))))
  = String.concat nl
      ["module bare"; "// No parameters "; "// No ports "; "";
       "  // Signal Declarations"; "  wire a; "; "  wire [7:0] b; "; "  // No Instances";
       ""; "endmodule // bare "; ""; ""; ""].
Proof.
  rewrite (@X12_write_module_definition_leaf (demo_base []) bare [] [] (new_netlister [])).
  - reflexivity.
  - intros [].
  - constructor.
  - constructor.
  - constructor.
  - reflexivity.
Defined.

(** X13: when the declaration of a port of a module cannot be formatted,
    [write_module_definition] raises the exception of [format_port_decl]
    for the first such port; the module stays registered, the destination
    holds the header, the parameter block, the opener of the port block and
    the declarations of the ports before it, each with its comma, and no
    closing line; the indent stays one level in. *)
Theorem X13_write_module_definition_port_raises {base : NetlisterBase}
    (module : PModule) (pdecls decls : list string) (pre post : list Port) (pport : Port)
    (e : Exc) (self : Netlister) :
  ~ In (get_module_name module) (module_names self) ->
  NoDup (keys (mod_default_parameters module)) ->
  Forall2 (fun (item : string * PParameter) decl =>
             format_param_decl (fst item) (snd item) = inr decl)
          (mod_default_parameters module) pdecls ->
  mod_ports module = (pre ++ pport :: post)%list ->
  Forall2 (fun p decl => format_port_decl p = inr decl) pre decls ->
  format_port_decl pport = inl e ->
  write_module_definition module self
  = (inl e,
     {| module_names := (module_names self ++ [get_module_name module])%list;
        pmodules := dict_set String.eqb (pmodules self) (mod_name module) module;
        indent := indent self + 1;
        dest :=
          (dest self
             ++ {| line_indent := indent self;
                   line_text := "module " ++ get_module_name module |}
             :: default_parameter_lines (indent self) (mod_default_parameters module) pdecls
             ++ {| line_indent := indent self; line_text := "( " |}
             :: lines_at (indent self + 1)
                  (map (fun t : string => (t ++ ",")%string) decls))%list |}).
Proof.
  intros Hnot Hnd Hp Hsplit Hd He.
  rewrite (write_module_definition_fresh _ _ Hnot).
  unfold bind at 1. rewrite writeln_written.
  unfold bind at 1. rewrite (write_default_parameters_lines _ _ _ Hnd Hp).
  unfold bind at 1. rewrite (write_ports_raises _ _ _ _ _ _ _ Hsplit Hd He).
  unfold indented, written, registered. cbn [indent dest module_names pmodules].
  unfold set_add.
  destruct (set_mem (get_module_name module) (module_names self)) eqn:E;
    [apply set_mem_In in E; contradiction |].
  f_equal. f_equal. rewrite <- !app_assoc. cbn [app]. rewrite <- ?app_assoc. reflexivity.
Qed.

Lemma X13_write_module_definition_port_raises_witness :
  @write_module_definition (demo_base []) half_directed (new_netlister [])
  = (inl (RuntimeError "Invalid Verilog netlisting for undirected Port a"),
     {| module_names := ["half"];
        pmodules := [("half", half_directed)];
        indent := 1;
        dest := lines_at 0 ["module half"; "#( "] ++ lines_at 1 ["parameter w = 8"]
                  ++ lines_at 0 [") "; "( "] ++ lines_at 1 ["input wire a,"] |}).
Proof.
  apply (@X13_write_module_definition_port_raises (demo_base []) half_directed
           ["parameter w = 8"] ["input wire a"] [port_a] [port_b] port_undirected
           (RuntimeError "Invalid Verilog netlisting for undirected Port a")
           (new_netlister [])).
  - intros [].
  - repeat constructor. intros [].
  - repeat constructor.
  - reflexivity.
  - repeat constructor.
  - reflexivity.
Defined.

(** X14: the default-parameter block raises only what [format_param_decl]
    raises for a parameter of the module: looking a declared name up in the
    mapping never fails, so no [KeyError] of the lookup is ever raised. *)
Theorem X14_write_default_parameters_raises_only {base : NetlisterBase}
    (module : PModule) (self self' : Netlister) (e : Exc) :
  write_default_parameters module self = (inl e, self') ->
  exists name pparam,
    In (name, pparam) (mod_default_parameters module) /\
    format_param_decl name pparam = inl e.
Proof.
  intros H. unfold write_default_parameters in H.
  destruct (mod_default_parameters module) as [|item l] eqn:Ed; [discriminate |].
  cbn [truthy] in H. rewrite <- Ed in H.
  set (d := mod_default_parameters module) in *.
  destruct (decls_all_or_first_fails d (keys d) ltac:(auto))
    as [(decls & HF) | (pre & name & post & decls & pparam & e' & Hs & HF & Hget & Hin & He)].
  - rewrite (block_written _ _ _ (separated "" decls)) in H; [discriminate |].
    intros s. apply (for_enumerate_separated _ _ "" (len d)) with (2 := HF).
    + intros num x t s' (pparam & Hget & Hdecl). unfold bind, lift.
      rewrite Hget, Hdecl, writeln_written. now rewrite append_nil_r.
    + unfold len, keys. rewrite length_map. lia.
  - rewrite (block_raises _ _ _ (map (fun t => t ++ "," ++ "") decls) e') in H.
    + injection H as He' _. rewrite <- Ed. exists name, pparam.
      split; [exact Hin | congruence].
    + intros s. rewrite Hs.
      apply (for_enumerate_raises _ _ "" (len d)) with (3 := HF).
      * intros num x t s' (pp & Hg & Hdecl). unfold bind, lift.
        rewrite Hg, Hdecl, writeln_written. now rewrite append_nil_r.
      * intros num s'. unfold bind, lift. now rewrite Hget, He.
      * rewrite <- Hs. unfold len, keys. rewrite length_map. lia.
Qed.

Lemma X14_write_default_parameters_raises_only_witness :
  exists name pparam,
    In (name, pparam) (mod_default_parameters bad_default) /\
    @format_param_decl (demo_base []) name pparam = inl ValueError.
Proof.
  apply (@X14_write_default_parameters_raises_only (demo_base []) bad_default
           (new_netlister [])
           (snd (@write_default_parameters (demo_base []) bad_default (new_netlister [])))
           ValueError).
  reflexivity.
Defined.

(** ** Port and signal declarations *)

Lemma dict_get_set_inv {V : Type} (d : list (Z * V)) (k k' : Z) (v w : V) :
  dict_get Z.eqb (dict_set Z.eqb d k v) k' = Some w ->
  (k' = k /\ w = v) \/ (k' <> k /\ dict_get Z.eqb d k' = Some w).
Proof.
  intros H. destruct (Z.eq_dec k k') as [<- | Hne].
  - rewrite dict_get_set_same in H. left. split; congruence.
  - rewrite dict_get_set_other in H by exact Hne. right. split; congruence.
Qed.

(** X15: when the four direction enumerators are distinct numbers, a port
    whose direction is INPUT, OUTPUT or INOUT is declared with the keyword
    [input], [output] or [inout], a blank and the declaration of its
    signal. *)
Theorem X15_format_port_decl_directed {base : NetlisterBase} (pport : Port) :
  NoDup [Direction_Value "INPUT"; Direction_Value "OUTPUT";
         Direction_Value "INOUT"; Direction_Value "NONE"] ->
  (port_direction pport = Direction_Value "INPUT" ->
   format_port_decl pport = inr ("input " ++ format_signal_decl (port_signal pport))) /\
  (port_direction pport = Direction_Value "OUTPUT" ->
   format_port_decl pport = inr ("output " ++ format_signal_decl (port_signal pport))) /\
  (port_direction pport = Direction_Value "INOUT" ->
   format_port_decl pport = inr ("inout " ++ format_signal_decl (port_signal pport))).
Proof.
  intros Hnd.
  inversion Hnd as [|? ? H1 Hnd1]; subst.
  inversion Hnd1 as [|? ? H2 Hnd2]; subst.
  inversion Hnd2 as [|? ? H3 _]; subst.
  simpl in H1, H2, H3.
  unfold format_port_decl, port_type_to_str.
  repeat split; intros ->.
  - rewrite !dict_get_set_other by tauto. simpl. now rewrite Z.eqb_refl.
  - rewrite 2!dict_get_set_other by tauto. now rewrite dict_get_set_same.
  - rewrite dict_get_set_other by tauto. now rewrite dict_get_set_same.
Qed.

Lemma X15_format_port_decl_directed_witness :
  @format_port_decl (demo_base []) port_b = inr "output wire [7:0] b".
Proof.
  refine (proj1 (proj2 (@X15_format_port_decl_directed (demo_base []) port_b _)) eq_refl).
  repeat constructor; simpl; intuition discriminate.
Defined.

(** X16: whenever [format_port_decl] returns a declaration, it is one of
    the keywords [input], [output], [inout], a blank and the declaration of
    the port's signal, and the port's direction is the number of INPUT,
    OUTPUT or INOUT and not that of NONE: the text [NO_DIRECTION] is never
    written as a keyword. *)
Theorem X16_format_port_decl_returns {base : NetlisterBase} (pport : Port) (decl : string) :
  format_port_decl pport = inr decl ->
  (exists keyword,
      In keyword ["input"; "output"; "inout"] /\
      decl = keyword ++ " " ++ format_signal_decl (port_signal pport)) /\
  In (port_direction pport)
     [Direction_Value "INPUT"; Direction_Value "OUTPUT"; Direction_Value "INOUT"] /\
  port_direction pport <> Direction_Value "NONE".
Proof.
  unfold format_port_decl, port_type_to_str. intros H.
  destruct (dict_get Z.eqb _ (port_direction pport)) as [dir_ |] eqn:E; [| discriminate].
  apply dict_get_set_inv in E as [[_ ->] | [Hnone E]]; [discriminate |].
  assert (Hk : In dir_ ["input"; "output"; "inout"] /\
               In (port_direction pport)
                  [Direction_Value "INPUT"; Direction_Value "OUTPUT";
                   Direction_Value "INOUT"]).
  { apply dict_get_set_inv in E as [[-> ->] | [_ E]]; [simpl; tauto |].
    apply dict_get_set_inv in E as [[-> ->] | [_ E]]; [simpl; tauto |].
    apply dict_get_set_inv in E as [[-> ->] | [_ E]]; [simpl; tauto |].
    discriminate. }
  destruct Hk as (Hkw & Hdir).
  assert (Hno : (dir_ =? "NO_DIRECTION") = false).
  { destruct Hkw as [<- | [<- | [<- | []]]]; reflexivity. }
  rewrite Hno in H. injection H as <-.
  repeat split; try assumption. exists dir_. now split.
Qed.

Lemma X16_format_port_decl_returns_witness :
  In (port_direction port_a)
     [demo_Direction_Value "INPUT"; demo_Direction_Value "OUTPUT";
      demo_Direction_Value "INOUT"].
Proof.
  exact (proj1 (proj2 (@X16_format_port_decl_returns (demo_base []) port_a
                         "input wire a" eq_refl))).
Defined.


(** * The blocks in the output of the writers *)

Lemma append_inv_l (a x y : string) : a ++ x = a ++ y -> x = y.
Proof.
  induction a as [|c a IH]; simpl; intros H; [exact H |].
  injection H as H. now apply IH.
Qed.

Lemma indent_add_indented (n : Z) (self : Netlister) :
  indent_add n self = (inr tt, indented n self).
Proof. reflexivity. Qed.

Lemma write_instance_unresolved_run {base : NetlisterBase} (pinst : PInstance)
    (self : Netlister) (e : Exc) :
  resolve_reference (pmodules self) (inst_module pinst) = inl e ->
  write_instance pinst self = (inl e, self).
Proof. intros H. unfold write_instance, bind, lift. now rewrite H. Qed.

Section BlocksInOutput.
Context {base : NetlisterBase}.

(** The header and the parameter block of a module definition, whatever
    follows. *)
Lemma write_module_definition_parameters_head (module : PModule) (pdecls : list string)
    (self : Netlister) :
  ~ In (get_module_name module) (module_names self) ->
  NoDup (keys (mod_default_parameters module)) ->
  mod_default_parameters module <> [] ->
  Forall2 (fun (item : string * PParameter) decl =>
             format_param_decl (fst item) (snd item) = inr decl)
          (mod_default_parameters module) pdecls ->
  exists rest,
    dest (snd (write_module_definition module self))
    = (dest self
         ++ {| line_indent := indent self; line_text := "module " ++ get_module_name module |}
         :: block (indent self) "#( " (separated "" pdecls) ") "
         ++ rest)%list.
Proof.
  intros Hnot Hnd Hne Hp.
  rewrite (write_module_definition_fresh _ _ Hnot).
  unfold bind at 1. rewrite writeln_written.
  unfold bind at 1. rewrite (write_default_parameters_written _ _ _ Hne Hnd Hp).
  rewrite !written_app.
  match goal with
  | |- context [dest (snd (?c ?s))] =>
      assert (Hsi : sink_independent c);
        [| rewrite (sink_independent_appends c s Hsi);
           exists (dest (snd (c (emptied s)))) ]
  end.
  - unfold write_ports, write_signals, write_instances.
    repeat first [ apply si_write_instance | si_step ].
  - cbn [dest written snd indent registered].
    rewrite <- ?app_assoc, <- ?app_comm_cons, <- ?app_assoc. reflexivity.
Qed.

(** The name of the target, the parameter-value block and the name of an
    instance, whatever follows. *)
Lemma write_instance_overrides_head (pinst : PInstance) (self : Netlister)
    (target : ResolvedModule) (pvals : list string) :
  resolve_reference (pmodules self) (inst_module pinst) = inr target ->
  inst_parameters pinst <> [] ->
  Forall2 (fun (item : string * PParameter) pval => get_param_value (snd item) = inr pval)
          (inst_parameters pinst) pvals ->
  exists rest,
    dest (snd (write_instance pinst self))
    = (dest self
         ++ {| line_indent := indent self; line_text := rm_module_name target |}
         :: block (indent self) "#( " (overrides (inst_parameters pinst) pvals) ") "
         ++ {| line_indent := indent self; line_text := inst_name pinst |}
         :: rest)%list.
Proof.
  intros Hres Hne Hpv. unfold write_instance.
  unfold bind at 1. unfold lift at 1. rewrite Hres. cbv zeta.
  unfold bind at 1. rewrite writeln_written.
  unfold bind at 1. rewrite (write_parameter_values_written _ _ _ Hne Hpv).
  unfold bind at 1. rewrite writeln_written.
  rewrite !written_app.
  match goal with
  | |- context [dest (snd (?c ?s))] =>
      assert (Hsi : sink_independent c);
        [| rewrite (sink_independent_appends c s Hsi);
           exists (dest (snd (c (emptied s)))) ]
  end.
  - unfold write_connections. repeat si_step.
  - cbn [dest written snd indent].
    rewrite <- ?app_assoc, <- ?app_comm_cons, <- ?app_assoc. reflexivity.
Qed.

Lemma overrides_bodies (params : list (string * PParameter)) (pvals : list string) :
  overrides params pvals = map (fun body => body ++ " ") (override_bodies params pvals).
Proof.
  unfold overrides, override_bodies. rewrite map_map.
  apply map_ext. intros [[pname pparam] pval]. cbn [fst snd].
  now rewrite !append_assoc.
Qed.

(** Entries that all end in a blank are not separated entries, as soon as
    there are two. *)
Lemma blank_entries_not_separated (bodies : list string) :
  (2 <= length bodies)%nat ->
  map (fun body => body ++ " ") bodies <> separated " " bodies.
Proof.
  destruct bodies as [|b [|b' r]]; simpl; try lia.
  intros _ H. injection H as H _. apply append_inv_l in H. discriminate H.
Qed.

(** The first instance of a module is resolved in the module map that
    holds the module already. *)
Lemma write_module_definition_resolves_registered (module : PModule)
    (pdecls decls : list string) (pinst : PInstance) (others : list PInstance)
    (e : Exc) (self : Netlister) :
  ~ In (get_module_name module) (module_names self) ->
  NoDup (keys (mod_default_parameters module)) ->
  Forall2 (fun (item : string * PParameter) decl =>
             format_param_decl (fst item) (snd item) = inr decl)
          (mod_default_parameters module) pdecls ->
  Forall2 (fun pport decl => format_port_decl pport = inr decl) (mod_ports module) decls ->
  mod_instances module = pinst :: others ->
  resolve_reference (dict_set String.eqb (pmodules self) (mod_name module) module)
                    (inst_module pinst) = inl e ->
  fst (write_module_definition module self) = inl e.
Proof.
  intros Hnot Hnd Hp Hd Hinst Hres.
  rewrite (write_module_definition_fresh _ _ Hnot).
  unfold bind at 1. rewrite writeln_written.
  unfold bind at 1. rewrite (write_default_parameters_lines _ _ _ Hnd Hp).
  unfold bind at 1. rewrite (write_ports_lines _ _ _ Hd).
  unfold bind at 1. rewrite writeln_written.
  rewrite !written_app.
  unfold bind at 1. rewrite indent_add_indented.
  unfold bind at 1. rewrite write_signals_lines.
  assert (Hinsts : forall s,
             pmodules s = dict_set String.eqb (pmodules self) (mod_name module) module ->
             exists s', write_instances module s = (inl e, s')).
  { intros s Hs. unfold write_instances. rewrite Hinst. cbn [truthy for_each].
    unfold bind at 1. rewrite writeln_written.
    unfold bind at 1. rewrite writeln_written.
    unfold bind at 1. rewrite (write_instance_unresolved_run pinst _ e).
    - eauto.
    - cbn [pmodules written]. now rewrite Hs. }
  match goal with
  | |- fst (bind (write_instances module) _ ?s) = _ =>
      destruct (Hinsts s ltac:(reflexivity)) as (s' & Hs')
  end.
  now rewrite (bind_raise _ _ _ _ _ Hs').
Qed.
End BlocksInOutput.

(** C3: a module definition whose name is new and whose parameter and
    port declarations can all be formatted holds, for a module with N >= 1
    ports, behind the header and the parameter block, a port block of N
    entries between its opener and closer, every entry but the last being
    the port's declaration followed by a comma and the last the declaration
    alone; for a module with default parameters, it holds behind the header
    a parameter block under the same law; and an instance that is written
    to its end, of a target with ports, holds a connection block under the
    same law, whose entries end in a blank, behind the comma if any. *)
Theorem C3_separator_law {base : NetlisterBase} :
  (forall (module : PModule) (pdecls decls : list string) (self : Netlister),
      ~ In (get_module_name module) (module_names self) ->
      NoDup (keys (mod_default_parameters module)) ->
      Forall2 (fun (item : string * PParameter) decl =>
                 format_param_decl (fst item) (snd item) = inr decl)
              (mod_default_parameters module) pdecls ->
      mod_ports module <> [] ->
      Forall2 (fun pport decl => format_port_decl pport = inr decl) (mod_ports module) decls ->
      (exists rest,
          dest (snd (write_module_definition module self))
          = (dest self
               ++ {| line_indent := indent self;
                     line_text := "module " ++ get_module_name module |}
               :: default_parameter_lines (indent self) (mod_default_parameters module) pdecls
               ++ block (indent self) "( " (separated "" decls) "); "
               ++ rest)%list) /\
      length (separated "" decls) = length (mod_ports module) /\
      forall i, (i < length (mod_ports module))%nat ->
        nth i (separated "" decls) ""
        = if (S i =? length (mod_ports module))%nat
          then nth i decls "" else nth i decls "" ++ ",") /\
  (forall (module : PModule) (pdecls : list string) (self : Netlister),
      ~ In (get_module_name module) (module_names self) ->
      NoDup (keys (mod_default_parameters module)) ->
      mod_default_parameters module <> [] ->
      Forall2 (fun (item : string * PParameter) decl =>
                 format_param_decl (fst item) (snd item) = inr decl)
              (mod_default_parameters module) pdecls ->
      (exists rest,
          dest (snd (write_module_definition module self))
          = (dest self
               ++ {| line_indent := indent self;
                     line_text := "module " ++ get_module_name module |}
               :: block (indent self) "#( " (separated "" pdecls) ") "
               ++ rest)%list) /\
      length (separated "" pdecls) = length (mod_default_parameters module) /\
      forall i, (i < length (mod_default_parameters module))%nat ->
        nth i (separated "" pdecls) ""
        = if (S i =? length (mod_default_parameters module))%nat
          then nth i pdecls "" else nth i pdecls "" ++ ",") /\
  (forall (pinst : PInstance) (self : Netlister) (target : ResolvedModule)
          (pvals : list string) (cs : list Connection),
      resolve_reference (pmodules self) (inst_module pinst) = inr target ->
      Forall2 (fun (item : string * PParameter) pval =>
                 get_param_value (snd item) = inr pval)
              (inst_parameters pinst) pvals ->
      ports (rm_module target) <> [] ->
      Forall2 (fun pname pconn =>
                 dict_get String.eqb (inst_connections pinst) pname = Some pconn)
              (port_names (rm_module target)) cs ->
      write_instance pinst self
      = (inr tt,
         written
           ({| line_indent := indent self; line_text := rm_module_name target |}
              :: parameter_value_lines (indent self) (inst_parameters pinst) pvals
              ++ {| line_indent := indent self; line_text := inst_name pinst |}
              :: block (indent self) "( "
                   (separated " " (bindings (port_names (rm_module target)) cs)) "); "
              ++ [ {| line_indent := indent self; line_text := "" |} ])
           self) /\
      length (separated " " (bindings (port_names (rm_module target)) cs))
      = length (ports (rm_module target)) /\
      forall i, (i < length (ports (rm_module target)))%nat ->
        nth i (separated " " (bindings (port_names (rm_module target)) cs)) ""
        = if (S i =? length (ports (rm_module target)))%nat
          then nth i (bindings (port_names (rm_module target)) cs) "" ++ " "
          else nth i (bindings (port_names (rm_module target)) cs) "" ++ ", ").
Proof.
  split; [| split].
  - intros module pdecls decls self Hnot Hnd Hp Hne Hd.
    pose proof (Forall2_length Hd) as Hlen.
    split; [now apply write_module_definition_head |].
    split; [now rewrite separated_length |].
    intros i Hi. rewrite separated_nth by lia. rewrite Hlen.
    destruct (S i =? length decls)%nat; now rewrite ?append_nil_r.
  - intros module pdecls self Hnot Hnd Hne Hp.
    pose proof (Forall2_length Hp) as Hlen.
    split; [now apply write_module_definition_parameters_head |].
    split; [now rewrite separated_length |].
    intros i Hi. rewrite separated_nth by lia. rewrite Hlen.
    destruct (S i =? length pdecls)%nat; now rewrite ?append_nil_r.
  - intros pinst self target pvals cs Hres Hpv Hne Hcs.
    pose proof (Forall2_length Hcs) as Hlen.
    assert (Hb : length (bindings (port_names (rm_module target)) cs)
                 = length (ports (rm_module target))).
    { unfold bindings. rewrite length_map, length_combine, <- Hlen, Nat.min_id.
      unfold port_names. apply length_map. }
    split; [now apply write_instance_written |].
    split; [now rewrite separated_length |].
    intros i Hi. rewrite separated_nth by lia. rewrite Hb. reflexivity.
Qed.

Lemma C3_separator_law_witness :
  (exists rest,
      dest (snd (@write_module_definition (demo_base []) leaf (new_netlister [])))
      = (dest (new_netlister [])
           ++ {| line_indent := indent (new_netlister []);
                 line_text := "module " ++ @get_module_name (demo_base []) leaf |}
           :: default_parameter_lines (indent (new_netlister []))
                (mod_default_parameters leaf) ["parameter w = 8"; "parameter d"]
           ++ block (indent (new_netlister [])) "( "
                (separated "" ["input wire a"; "output wire [7:0] b"]) "); "
           ++ rest)%list) /\
  (exists rest,
      dest (snd (@write_module_definition (demo_base []) leaf (new_netlister [])))
      = (dest (new_netlister [])
           ++ {| line_indent := indent (new_netlister []);
                 line_text := "module " ++ @get_module_name (demo_base []) leaf |}
           :: block (indent (new_netlister [])) "#( "
                (separated "" ["parameter w = 8"; "parameter d"]) ") "
           ++ rest)%list) /\
  separated "" ["input wire a"; "output wire [7:0] b"]
  = ["input wire a,"; "output wire [7:0] b"].
Proof.
  pose proof (@C3_separator_law (demo_base [])) as (Hports & Hparams & _).
  split; [| split].
  - refine (proj1 (Hports leaf ["parameter w = 8"; "parameter d"]
                          ["input wire a"; "output wire [7:0] b"] (new_netlister [])
                          _ _ _ _ _)).
    + intros [].
    + repeat constructor; simpl; intuition discriminate.
    + repeat constructor.
    + discriminate.
    + repeat constructor.
  - refine (proj1 (Hparams leaf ["parameter w = 8"; "parameter d"] (new_netlister [])
                           _ _ _ _)).
    + intros [].
    + repeat constructor; simpl; intuition discriminate.
    + discriminate.
    + repeat constructor.
  - reflexivity.
Defined.

(** C10: an instance with at least one parameter value, whose reference
    resolves and whose values can all be formatted, holds in the output of
    [write_instance], between the name of the target and its own name, a
    block with one entry per entry of the mapping, in the mapping's order:
    the i-th entry is the i-th name, an equals sign, the text of the i-th
    value, and a blank; nothing else is added to an entry, the last or
    another, so with two entries or more the block is not the one the
    separator law gives for these entries. *)
Theorem C10_write_instance_overrides {base : NetlisterBase}
    (pinst : PInstance) (self : Netlister) (target : ResolvedModule)
    (pvals : list string) :
  resolve_reference (pmodules self) (inst_module pinst) = inr target ->
  inst_parameters pinst <> [] ->
  Forall2 (fun (item : string * PParameter) pval => get_param_value (snd item) = inr pval)
          (inst_parameters pinst) pvals ->
  (exists rest,
      dest (snd (write_instance pinst self))
      = (dest self
           ++ {| line_indent := indent self; line_text := rm_module_name target |}
           :: block (indent self) "#( " (overrides (inst_parameters pinst) pvals) ") "
           ++ {| line_indent := indent self; line_text := inst_name pinst |}
           :: rest)%list) /\
  overrides (inst_parameters pinst) pvals
  = map (fun body => body ++ " ") (override_bodies (inst_parameters pinst) pvals) /\
  length (override_bodies (inst_parameters pinst) pvals) = length (inst_parameters pinst) /\
  (forall i pname pparam,
     nth_error (inst_parameters pinst) i = Some (pname, pparam) ->
     exists pval, get_param_value pparam = inr pval /\
                  nth_error (override_bodies (inst_parameters pinst) pvals) i
                  = Some (pname ++ "=" ++ pval) /\
                  nth_error (overrides (inst_parameters pinst) pvals) i
                  = Some (pname ++ "=" ++ pval ++ " ")) /\
  ((2 <= length (inst_parameters pinst))%nat ->
   overrides (inst_parameters pinst) pvals
   <> separated " " (override_bodies (inst_parameters pinst) pvals)).
Proof.
  intros Hres Hne HF.
  pose proof (Forall2_length HF) as Hlen.
  assert (Hbl : length (override_bodies (inst_parameters pinst) pvals)
                = length (inst_parameters pinst)).
  { unfold override_bodies. now rewrite length_map, length_combine, <- Hlen, Nat.min_id. }
  split; [now apply write_instance_overrides_head |].
  split; [apply overrides_bodies |].
  split; [exact Hbl |].
  split.
  - intros i pname pparam Hi.
    destruct (Forall2_nth_error _ _ _ _ _ HF Hi) as (pval & Hv & Hget).
    exists pval. split; [exact Hget |].
    assert (Hc : nth_error (combine (inst_parameters pinst) pvals) i
                 = Some (pname, pparam, pval)).
    { clear - Hi Hv. revert pvals i Hi Hv.
      induction (inst_parameters pinst) as [|item l IH]; intros [|v vs] [|i] Hi Hv;
        simpl in *; try discriminate.
      - now injection Hi as ->; injection Hv as ->.
      - now apply IH. }
    unfold override_bodies, overrides.
    split; now rewrite (map_nth_error _ _ _ Hc).
  - intros H2. rewrite overrides_bodies. apply blank_entries_not_separated.
    now rewrite Hbl.
Qed.

Lemma C10_write_instance_overrides_witness :
  (exists rest,
      dest (snd (@write_instance (demo_base []) inst_ok after_leaf))
      = (dest after_leaf
           ++ {| line_indent := indent after_leaf; line_text := "leaf" |}
           :: block (indent after_leaf) "#( " (overrides (inst_parameters inst_ok) ["4"; "2"])
                ") "
           ++ {| line_indent := indent after_leaf; line_text := inst_name inst_ok |}
           :: rest)%list) /\
  overrides (inst_parameters inst_ok) ["4"; "2"] = ["w=4 "; "d=2 "].
Proof.
  split.
  - refine (proj1 (@C10_write_instance_overrides (demo_base []) inst_ok after_leaf
                     {| rm_module := LocalModule leaf; rm_module_name := "leaf" |}
                     ["4"; "2"] eq_refl _ _)).
    + discriminate.
    + repeat constructor.
  - reflexivity.
Defined.

(** * Unsupported parameters and undirected ports *)

(** C1, as stated, fails: a parameter with no value set has none of the
    three recognized kinds, yet its default is absent and its declaration
    is formatted without error. *)
Lemma C1_format_param_decl_unset_returns :
  ~ (forall (str_double : Z -> string) (base : NetlisterBase)
            (name : string) (pparam : PParameter),
        recognized_kind pparam = false ->
        exists e,
          @format_param_decl (with_spec_parameters str_double base) name pparam = inl e).
Proof.
  intros H.
  destruct (H (fun _ => "0.0") (demo_base []) "p" param_unset eq_refl) as [e He].
  discriminate He.
Qed.

(** C1, amended: for a parameter whose value is set and is of none of the
    three recognized kinds, formatting its declaration raises [ValueError],
    the unsupported parameter type: [format_param_decl] has the exception
    from [get_param_default], its own call of [format_param_type], which
    raises the same for such a parameter, being a comment; a parameter
    with no value set, which has none of the three kinds either, is
    declared by its name alone, without an error. *)
Theorem C1_format_param_decl_unsupported {base : NetlisterBase}
    (str_double : Z -> string) (name : string) (pparam : PParameter) :
  recognized_kind pparam = false ->
  format_param_type pparam = inl ValueError /\
  (param_value pparam <> None ->
   @format_param_decl (with_spec_parameters str_double base) name pparam
   = inl ValueError) /\
  (param_value pparam = None ->
   @format_param_decl (with_spec_parameters str_double base) name pparam
   = inr ("parameter " ++ name)).
Proof.
  intros H. split; [now apply format_param_type_unrecognized |].
  unfold format_param_decl. cbn [get_param_default with_spec_parameters].
  unfold spec_get_param_default, spec_get_param_value.
  unfold recognized_kind, WhichOneof_value in H.
  destruct (param_value pparam) as [[i | bits | str | field] |]; simpl in H;
    try discriminate; split; intros Hv; try congruence; reflexivity.
Qed.

Lemma C1_format_param_decl_unsupported_witness :
  @format_param_decl (with_spec_parameters (fun _ => "0.0") (demo_base [])) "p" param_bool
  = inl ValueError /\
  @format_param_decl (with_spec_parameters (fun _ => "0.0") (demo_base [])) "p" param_unset
  = inr "parameter p".
Proof.
  split.
  - refine (proj1 (proj2 (@C1_format_param_decl_unsupported (demo_base [])
                            (fun _ => "0.0") "p" param_bool eq_refl)) _).
    discriminate.
  - exact (proj2 (proj2 (@C1_format_param_decl_unsupported (demo_base [])
                           (fun _ => "0.0") "p" param_unset eq_refl)) eq_refl).
Defined.

(** A parameter of a recognized kind is declared with its literal. *)
Example format_param_decl_samples :
  @format_param_decl (with_spec_parameters (fun _ => "0.0") (demo_base [])) "w" (param_int 8)
  = inr "parameter w = 8" /\
  @format_param_decl (with_spec_parameters (fun _ => "0.0") (demo_base [])) "s"
    {| param_value := Some (PString "fast") |}
  = inr "parameter s = fast".
Proof. split; reflexivity. Qed.

(** C8, as stated, fails: a port whose direction was never assigned reads
    as direction 0, the number of INPUT, and is declared as an input. *)
Lemma C8_format_port_decl_unset_is_input :
  ~ (forall (base : NetlisterBase) (pport : Port),
        port_direction pport = unset_direction \/
        port_direction pport = Direction_Value "NONE" ->
        exists e, format_port_decl pport = inl e).
Proof.
  intros H.
  destruct (H (demo_base []) port_a (or_introl eq_refl)) as [e He].
  discriminate He.
Qed.

(** C8, amended: formatting the declaration of a port whose direction is
    NONE, or a number that is none of the four enumerators, raises a
    [RuntimeError] that tells which, and no declaration is returned; a port
    whose direction was never assigned is not among these: where INPUT is
    numbered 0 and the enumerators are distinct, it reads as an INPUT port
    and is declared with the keyword [input]. *)
Theorem C8_format_port_decl_undirected {base : NetlisterBase} (pport : Port) :
  (port_direction pport = Direction_Value "NONE" ->
   format_port_decl pport
   = inl (RuntimeError ("Invalid Verilog netlisting for undirected Port "
                        ++ str_Port pport))) /\
  (unknown_direction pport ->
   format_port_decl pport
   = inl (RuntimeError ("Invalid Verilog netlisting for unknown Port direction "
                        ++ str_int (port_direction pport)))) /\
  (port_direction pport = Direction_Value "NONE" \/ unknown_direction pport ->
   forall decl, format_port_decl pport <> inr decl) /\
  (port_direction pport = unset_direction ->
   Direction_Value "INPUT" = unset_direction ->
   NoDup [Direction_Value "INPUT"; Direction_Value "OUTPUT";
          Direction_Value "INOUT"; Direction_Value "NONE"] ->
   format_port_decl pport = inr ("input " ++ format_signal_decl (port_signal pport))).
Proof.
  split; [apply format_port_decl_none |].
  split; [apply format_port_decl_unknown |].
  split.
  - intros [H | H] decl.
    + rewrite (format_port_decl_none _ H). discriminate.
    + rewrite (format_port_decl_unknown _ H). discriminate.
  - intros Hunset Hinput Hnd.
    inversion Hnd as [|? ? H1 _]; subst. simpl in H1.
    unfold format_port_decl, port_type_to_str.
    rewrite Hunset, <- Hinput.
    rewrite !dict_get_set_other by tauto. simpl. now rewrite Z.eqb_refl.
Qed.

Lemma C8_format_port_decl_undirected_witness :
  @format_port_decl (demo_base []) port_undirected
  = inl (RuntimeError ("Invalid Verilog netlisting for undirected Port "
                       ++ @str_Port (demo_base []) port_undirected)) /\
  @format_port_decl (demo_base []) port_unknown
  = inl (RuntimeError ("Invalid Verilog netlisting for unknown Port direction "
                       ++ str_int (port_direction port_unknown))) /\
  @format_port_decl (demo_base []) port_a
  = inr ("input " ++ format_signal_decl (port_signal port_a)).
Proof.
  split; [| split].
  - exact (proj1 (@C8_format_port_decl_undirected (demo_base []) port_undirected) eq_refl).
  - refine (proj1 (proj2 (@C8_format_port_decl_undirected (demo_base []) port_unknown)) _).
    unfold unknown_direction. vm_compute. intuition discriminate.
  - refine (proj2 (proj2 (proj2 (@C8_format_port_decl_undirected (demo_base []) port_a)))
                  eq_refl eq_refl _).
    repeat constructor; simpl; intuition discriminate.
Defined.

(** * Registration and the destination *)

(** X4: a module whose name is not yet registered is registered by
    [write_module_definition], and stays so whether the rest of the
    definition is written or raises: its name is added to the registry,
    and the module map gives the module for its [name], in place of any
    module it held under that name, the other entries of the map being as
    before; the module is in the map when its instances are written: a
    reference of its first instance that does not resolve in the map with
    the module entered makes the definition raise the resolver's
    exception. *)
Theorem X4_write_module_definition_registers {base : NetlisterBase}
    (module : PModule) (self : Netlister) :
  ~ In (get_module_name module) (module_names self) ->
  module_names (snd (write_module_definition module self))
  = (module_names self ++ [get_module_name module])%list /\
  dict_get String.eqb (pmodules (snd (write_module_definition module self)))
           (mod_name module) = Some module /\
  (forall name, name <> mod_name module ->
     dict_get String.eqb (pmodules (snd (write_module_definition module self))) name
     = dict_get String.eqb (pmodules self) name) /\
  (forall (pdecls decls : list string) (pinst : PInstance) (others : list PInstance)
          (e : Exc),
     NoDup (keys (mod_default_parameters module)) ->
     Forall2 (fun (item : string * PParameter) decl =>
                format_param_decl (fst item) (snd item) = inr decl)
             (mod_default_parameters module) pdecls ->
     Forall2 (fun pport decl => format_port_decl pport = inr decl)
             (mod_ports module) decls ->
     mod_instances module = pinst :: others ->
     resolve_reference (dict_set String.eqb (pmodules self) (mod_name module) module)
                       (inst_module pinst) = inl e ->
     fst (write_module_definition module self) = inl e).
Proof.
  intros Hnot.
  pose proof (keeps_module_body module_names module ltac:(now intros s1 s2 H _)
                (registered module self)) as Hn.
  pose proof (keeps_module_body pmodules module ltac:(now intros s1 s2 _ H)
                (registered module self)) as Hp.
  split; [| split; [| split]].
  - rewrite (write_module_definition_fresh _ _ Hnot), Hn.
    unfold registered, set_add. cbn [module_names].
    destruct (set_mem (get_module_name module) (module_names self)) eqn:E;
      [apply set_mem_In in E; contradiction | reflexivity].
  - rewrite (write_module_definition_fresh _ _ Hnot), Hp.
    apply dict_get_set_same_string.
  - intros name Hne. rewrite (write_module_definition_fresh _ _ Hnot), Hp.
    apply dict_get_set_other_string. congruence.
  - intros pdecls decls pinst others e Hnd Hpd Hd Hinst Hres.
    now apply (write_module_definition_resolves_registered module pdecls decls pinst others).
Qed.

Lemma X4_write_module_definition_registers_witness :
  (module_names (snd (@write_module_definition (demo_base []) top after_leaf))
   = (module_names after_leaf ++ [@get_module_name (demo_base []) top])%list /\
   dict_get String.eqb
     (pmodules (snd (@write_module_definition (demo_base []) top after_leaf)))
     (mod_name top) = Some top) /\
  fst (@write_module_definition (demo_base []) lonely (new_netlister []))
  = inl (RuntimeError "Invalid Module reference nowhere").
Proof.
  split.
  - destruct (@X4_write_module_definition_registers (demo_base []) top after_leaf)
      as (Hn & Hp & _).
    + simpl. intuition discriminate.
    + split; [exact Hn | exact Hp].
  - destruct (@X4_write_module_definition_registers (demo_base []) lonely (new_netlister []))
      as (_ & _ & _ & Hres).
    + intros [].
    + apply (Hres [] ["input wire a"] inst_unresolved []).
      * constructor.
      * constructor.
      * repeat constructor.
      * reflexivity.
      * reflexivity.
Defined.

(** A module that instantiates itself: the reference resolves, since the
    module is in the module map when its instances are written. *)
Example write_module_definition_self_reference :
  fst (@write_module_definition (demo_base []) selfref (new_netlister [])) = inr tt /\
  map line_text (dest (snd (@write_module_definition (demo_base []) selfref (new_netlister []))))
  = ["module rec"; "// No parameters "; "( "; "input wire a"; "); "; "";
     "// No Signal Declarations"; ""; "// Instance Declarations";
     "rec"; "// No parameters "; "again"; "( "; ".a(a) "; "); "; ""; "";
     "endmodule // rec " ++ nl ++ nl].
Proof. split; vm_compute; reflexivity. Qed.

(** X18: what [write_module_definition] and [write_instance] do never
    depends on the lines the destination already holds: with other lines
    in front, the outcome is the same and the same lines are added behind
    them. *)
Theorem X18_writers_ignore_destination {base : NetlisterBase} :
  (forall (module : PModule) (self : Netlister) (sink : list Line),
      write_module_definition module (after_sink sink self)
      = (fst (write_module_definition module self),
         after_sink sink (snd (write_module_definition module self)))) /\
  (forall (pinst : PInstance) (self : Netlister) (sink : list Line),
      write_instance pinst (after_sink sink self)
      = (fst (write_instance pinst self),
         after_sink sink (snd (write_instance pinst self)))).
Proof.
  split.
  - intros module self sink. apply si_write_module_definition.
  - intros pinst self sink. apply si_write_instance.
Qed.
